(** * x-Music Bar: the SABIT recipe engine (lib/recipeEngine)

    A shallow embedding of [INGREDIENTS], [calculateDynamicRecipe] and
    [vectorsToSABIT], followed by the code around them: the score page that
    calls the engine, the Firebase module, the writer and the reader of the
    shared record, the radar, the stacked bar and the small recipe of
    [RecipeDisplay].

    Numbers.  The source computes with JavaScript numbers; here they are
    real numbers ([R]), so [Math.exp] is [exp], [Math.max] is [Rmax], and a
    decimal literal of the source such as [0.15] is the rational it
    denotes.  Rounding error, infinities and NaN of binary64 arithmetic are
    outside this model.

    Arrays are lists; [Array.prototype.map], [filter], [reduce] and [sort]
    are written as list functions generic in the element type. *)

From Stdlib Require Import String Ascii DecimalString.
From Stdlib Require Import Reals Lra Lia ZArith List Sorted Permutation.
Import ListNotations.

#[local] Open Scope R_scope.

(** ** Array primitives *)

Section ArrayOps.
Context {A B : Type}.

(** [arr.map((x, i) => f x i)]: the callback also receives the index. *)
Fixpoint mapi_from (k : nat) (f : A -> nat -> B) (l : list A) : list B :=
  match l with
  | [] => []
  | x :: l' => f x k :: mapi_from (S k) f l'
  end.

Definition mapi (f : A -> nat -> B) (l : list A) : list B :=
  mapi_from 0 f l.

(** [arr.reduce(f, init)] is a left fold. *)
Definition reduce (f : B -> A -> B) (init : B) (l : list A) : B :=
  fold_left f l init.
End ArrayOps.

Section ArraySort.
Context {A : Type}.

(** The comparator of [Array.prototype.sort] returns a number: negative
    puts its first argument first, positive its second, zero keeps the
    two in their current order (the sort is stable since ES2019). *)
Variable comparefn : A -> A -> R.

Definition comes_first (x y : A) : bool :=
  if Rle_dec (comparefn x y) 0 then true else false.

(** [x] stood before every element of [l]; it stays before the elements
    it ties with. *)
Fixpoint sort_insert (x : A) (l : list A) : list A :=
  match l with
  | [] => [x]
  | y :: l' => if comes_first x y then x :: y :: l'
               else y :: sort_insert x l'
  end.

Fixpoint sort (l : list A) : list A :=
  match l with
  | [] => []
  | x :: l' => sort_insert x (sort l')
  end.
End ArraySort.

(** ** [Number.prototype.toFixed(1)]

    [toFixed(1)] picks the integer [n] with [n / 10] nearest to the
    magnitude of the number, the larger one on a tie, and prints it with
    one digit after the point, after a minus sign when the number is
    negative.  (JavaScript prints magnitudes from 10^21 on in exponent
    notation; they are not modelled.) *)

Definition decimal_digits (z : Z) : string :=
  NilZero.string_of_uint (N.to_uint (Z.to_N z)).

Definition tenths (x : R) : Z := Zfloor (Rabs x * 10 + / 2).

Definition toFixed1 (x : R) : string :=
  let n := tenths x in
  ((if Rlt_dec x 0 then "-" else "")
     ++ decimal_digits (n / 10) ++ "." ++ decimal_digits (n mod 10))%string.

(** ** Data model *)

(** [interface Ingredient]: a name and a characteristic vector. *)
Record Ingredient : Type := mkIngredient {
  ing_name : string;
  ing_s : R;   (* Sweetness *)
  ing_a : R;   (* Acidity *)
  ing_b : R;   (* Bitterness *)
  ing_i : R;   (* Intensity (Alcohol) *)
  ing_t : R    (* Texture (Carbonation) *)
}.

(** [interface SABITInput]. *)
Record SABITInput : Type := mkInput {
  s : R;
  a : R;
  b : R;
  i : R;
  t : R
}.

(** [interface RecipeItem] and [interface RecipeResult]: what the engine
    returns, with [totalVolume] and [ml] already printed by [toFixed(1)]. *)
Record RecipeItem : Type := mkItem {
  item_name : string;
  item_ml : string
}.

Record RecipeResult : Type := mkResult {
  result_totalVolume : string;
  result_recipe : list RecipeItem
}.

(** The argument of [vectorsToSABIT]: upper-case keys, display scale. *)
Record VectorValues : Type := mkVectors {
  vec_S : R;
  vec_A : R;
  vec_B : R;
  vec_I : R;
  vec_T : R
}.

(** ** The catalog *)

Definition INGREDIENTS : list Ingredient :=
  [ (* spirits *)
    mkIngredient "ジン (Tanqueray)"     0.00 0.00 0.15 0.95 0.00;
    mkIngredient "ウォッカ"             0.00 0.00 0.00 0.80 0.00;
    mkIngredient "ウイスキー (Jameson)" 0.05 0.00 0.20 0.80 0.00;
    mkIngredient "ホワイトラム"         0.08 0.00 0.00 0.80 0.00;
    (* liqueurs *)
    mkIngredient "カンパリ"             0.31 0.00 1.00 0.50 0.00;
    mkIngredient "チンザノロッソ"       0.19 0.15 0.40 0.30 0.00;
    mkIngredient "カルーア"             0.55 0.05 0.45 0.40 0.00;
    mkIngredient "コアントロー"         0.31 0.10 0.05 0.80 0.00;
    (* juices and syrups *)
    mkIngredient "レモンジュース"       0.05 0.95 0.05 0.00 0.00;
    mkIngredient "ライムジュース"       0.05 1.00 0.05 0.00 0.00;
    mkIngredient "シンプルシロップ"     1.00 0.00 0.00 0.00 0.10;
    mkIngredient "グレナディン"         0.90 0.20 0.00 0.00 0.20;
    (* carbonated *)
    mkIngredient "トニックウォーター"   0.12 0.20 0.45 0.00 0.80;
    mkIngredient "ジンジャーエール"     0.13 0.20 0.00 0.00 0.90;
    mkIngredient "ソーダ (強炭酸)"      0.00 0.00 0.00 0.00 1.00 ].

(** ** [calculateDynamicRecipe], one definition per [const] of its body *)

(** [{ name, score }], the element of [scores]. *)
Record Scored : Type := mkScored {
  scored_name : string;
  score : R
}.

(** [{ name, ml }] with [ml] still a number, the element of the unrounded
    [recipe]. *)
Record Pour : Type := mkPour {
  name : string;
  ml : R
}.

Definition totalVolume (input : SABITInput) : R := 60 + (90 * t input).

Definition dotProduct (input : SABITInput) (ing : Ingredient) : R :=
  (s input * ing_s ing) +
  (a input * ing_a ing) +
  (b input * ing_b ing) +
  (i input * ing_i ing) +
  (t input * ing_t ing).

Definition scores (input : SABITInput) : list Scored :=
  map (fun ing => mkScored (ing_name ing) (Rmax 0 (dotProduct input ing)))
      INGREDIENTS.

Definition sigma : R := 12.0.

Definition expScores (input : SABITInput) : list R :=
  map (fun sc => exp (score sc * sigma)) (scores input).

Definition sumExpScores (input : SABITInput) : R :=
  reduce (fun acc val => acc + val) 0 (expScores input).

(** The [.map((s, i) => ...)] step; [expScores[i]] is always in range
    (lemma [expScores_length]), so the default of [nth] is never read. *)
Definition allocations (input : SABITInput) : list Pour :=
  mapi (fun sc k =>
          mkPour (scored_name sc)
                 ((nth k (expScores input) 0 / sumExpScores input)
                    * totalVolume input))
       (scores input).

Definition at_least_1ml (item : Pour) : bool :=
  if Rge_dec (ml item) 1.0 then true else false.

Definition by_ml_desc (x y : Pour) : R := ml y - ml x.

(** The unrounded [recipe]: mapped, filtered, sorted. *)
Definition rawRecipe (input : SABITInput) : list Pour :=
  sort by_ml_desc (filter at_least_1ml (allocations input)).

Definition calculateDynamicRecipe (input : SABITInput) : RecipeResult :=
  {| result_totalVolume := toFixed1 (totalVolume input);
     result_recipe := map (fun r => mkItem (name r) (toFixed1 (ml r)))
                   (rawRecipe input) |}.

(** ** [vectorsToSABIT] *)

Definition vectorsToSABIT (vectors : VectorValues) : SABITInput :=
  {| s := vec_S vectors / 100;
     a := vec_A vectors / 100;
     b := vec_B vectors / 100;
     i := vec_I vectors / 100;
     t := vec_T vectors / 100 |}.

(** ** Vocabulary of the properties *)

(** The sum of a list of amounts. *)
Definition Rsum (l : list R) : R := fold_right Rplus 0 l.

(** The five axes, and the component of a catalog entry on an axis. *)
Inductive Axis : Type := AxisS | AxisA | AxisB | AxisI | AxisT.

Definition component (ax : Axis) (ing : Ingredient) : R :=
  match ax with
  | AxisS => ing_s ing
  | AxisA => ing_a ing
  | AxisB => ing_b ing
  | AxisI => ing_i ing
  | AxisT => ing_t ing
  end.

Definition unit_interval (x : R) : Prop := 0 <= x <= 1.

(** Every component of a catalog entry lies in [[0,1]]. *)
Definition components_in_range (c : Ingredient) : Prop :=
  forall ax, unit_interval (component ax c).

(** Some catalog entry has exactly 1.0 on the axis. *)
Definition axis_has_reference (ax : Axis) : Prop :=
  exists c, In c INGREDIENTS /\ component ax c = 1.

(** Every component of an input lies in [[0,1]]. *)
Definition engine_domain (input : SABITInput) : Prop :=
  unit_interval (s input) /\ unit_interval (a input) /\
  unit_interval (b input) /\ unit_interval (i input) /\
  unit_interval (t input).

(** The allocation as the specification words it: softmax with temperature
    12 of the zero-floored dot products, times the volume.  Written
    independently of the engine's definitions, to be compared with them. *)
Module Softmax.
Definition dot (input : SABITInput) (c : Ingredient) : R :=
  s input * ing_s c + a input * ing_a c + b input * ing_b c
  + i input * ing_i c + t input * ing_t c.

Definition weight (input : SABITInput) (c : Ingredient) : R :=
  exp (Rmax 0 (dot input c) * 12).

Definition denominator (input : SABITInput) : R :=
  Rsum (map (weight input) INGREDIENTS).

Definition amount (volume : R) (input : SABITInput) (c : Ingredient) : R :=
  weight input c / denominator input * volume.
End Softmax.

(** Clamping to [[0,1]], component by component, as the specification asks
    of the engine. *)
Definition clamp01 (x : R) : R := Rmax 0 (Rmin 1 x).

Definition clampInput (input : SABITInput) : SABITInput :=
  {| s := clamp01 (s input);
     a := clamp01 (a input);
     b := clamp01 (b input);
     i := clamp01 (i input);
     t := clamp01 (t input) |}.

(** [x] occurs somewhere before [y] in [l]. *)
Definition occurs_before {A : Type} (x y : A) (l : list A) : Prop :=
  exists l1 l2 l3, l = l1 ++ x :: l2 ++ y :: l3.

(** The comparator [(a, b) => key b - key a], the order it sorts into, and
    the test for the elements whose key is exactly [v]. *)
Definition descending_by {A : Type} (key : A -> R) (x y : A) : R :=
  key y - key x.

Definition key_ge {A : Type} (key : A -> R) (x y : A) : Prop :=
  key x >= key y.

Definition tied_at {A : Type} (key : A -> R) (v : R) (x : A) : bool :=
  if Req_dec_T (key x) v then true else false.

(** The entries of a list poured at exactly [v]. *)
Definition poured_at (v : R) (item : Pour) : bool := tied_at ml v item.

(** The number that the text printed by [toFixed1] denotes, in tenths. *)
Definition printed_tenths (x : R) : Z :=
  if Rlt_dec x 0 then (- tenths x)%Z else tenths x.

Definition zeroInput : SABITInput := mkInput 0 0 0 0 0.

(** ** Helpers shared by the components below *)

(** [Math.round]: the nearest integer, a tie going up. *)
Definition js_round (x : R) : Z := Zfloor (x + / 2).

(** [vectors[key]] and [{ ...vectors, [key]: value }] on the five keys. *)
Definition vec_get (k : Axis) (v : VectorValues) : R :=
  match k with
  | AxisS => vec_S v
  | AxisA => vec_A v
  | AxisB => vec_B v
  | AxisI => vec_I v
  | AxisT => vec_T v
  end.

Definition vec_set (k : Axis) (x : R) (v : VectorValues) : VectorValues :=
  match k with
  | AxisS => mkVectors x (vec_A v) (vec_B v) (vec_I v) (vec_T v)
  | AxisA => mkVectors (vec_S v) x (vec_B v) (vec_I v) (vec_T v)
  | AxisB => mkVectors (vec_S v) (vec_A v) x (vec_I v) (vec_T v)
  | AxisI => mkVectors (vec_S v) (vec_A v) (vec_B v) x (vec_T v)
  | AxisT => mkVectors (vec_S v) (vec_A v) (vec_B v) (vec_I v) x
  end.

(** [Object.values(vectors)], in the order the keys are written. *)
Definition vec_values (v : VectorValues) : list R :=
  [vec_S v; vec_A v; vec_B v; vec_I v; vec_T v].

Definition is_positive (x : R) : bool :=
  if Rgt_dec x 0 then true else false.

Definition DEFAULT_VALUES : VectorValues := mkVectors 0 0 0 0 0.

(** Every component of a vector of the pages lies between [lo] and [hi]. *)
Definition vec_within (lo hi : R) (v : VectorValues) : Prop :=
  forall k, lo <= vec_get k v <= hi.

(** No string occurs twice in the list. *)
Fixpoint distinct (l : list string) : bool :=
  match l with
  | [] => true
  | x :: l' => (negb (existsb (String.eqb x) l') && distinct l')%bool
  end.

(** ** The score page: the recipe it shows for the vector it holds *)

Module ScorePage.
Definition recipe (vectors : VectorValues) : RecipeResult :=
  let sabitInput := vectorsToSABIT vectors in
  calculateDynamicRecipe sabitInput.
End ScorePage.

(** ** The shared record [sabit/current] and the two ends that use it

    The record holds the five values and a timestamp; a key that is absent
    (or null) reads as [None].  [Date.now()] is a parameter [now]; a date is
    kept as its number of milliseconds.  The promise returned by [set] and
    its rejection handler are not modelled. *)

Module Sync.
Record SabitRecord : Type := mkRecord {
  rec_S : option R;
  rec_A : option R;
  rec_B : option R;
  rec_I : option R;
  rec_T : option R;
  rec_timestamp : option R
}.

(** [x ?? d]. *)
Definition nullish (x : option R) (d : R) : R :=
  match x with
  | Some v => v
  | None => d
  end.

(** [if (x)] on a number that may be absent: absent and 0 are falsy. *)
Definition truthy (x : option R) : bool :=
  match x with
  | Some v => if Req_dec_T v 0 then false else true
  | None => false
  end.

(** The writer: [setVectors] of [useSyncedVectorsWrite] and of the audience
    page.  The state is the local vector and the stored record; [db] tells
    whether the database reference is there. *)
Definition written (newVectors : VectorValues) (now : R) : SabitRecord :=
  {| rec_S := Some (vec_S newVectors);
     rec_A := Some (vec_A newVectors);
     rec_B := Some (vec_B newVectors);
     rec_I := Some (vec_I newVectors);
     rec_T := Some (vec_T newVectors);
     rec_timestamp := Some now |}.

Definition setVectors (db : bool) (now : R) (newVectors : VectorValues)
           (st : VectorValues * option SabitRecord)
  : VectorValues * option SabitRecord :=
  if db then (newVectors, Some (written newVectors now))
  else (newVectors, snd st).

(** The reader: the [onValue] callback of [useSyncedVectorsRead] and of the
    score page (which also tests its [mounted] flag; the hook has none, so
    it passes [true]). *)
Record ReadState : Type := mkReadState {
  vectors : VectorValues;
  lastUpdated : option R
}.

Definition initialReadState : ReadState :=
  {| vectors := DEFAULT_VALUES; lastUpdated := None |}.

Definition onSabitValue (mounted : bool) (data : option SabitRecord)
           (st : ReadState) : ReadState :=
  match data with
  | Some d =>
      if mounted then
        {| vectors := mkVectors (nullish (rec_S d) 0) (nullish (rec_A d) 0)
                                (nullish (rec_B d) 0) (nullish (rec_I d) 0)
                                (nullish (rec_T d) 0);
           lastUpdated := if truthy (rec_timestamp d)
                          then rec_timestamp d
                          else lastUpdated st |}
      else st
  | None => st
  end.
End Sync.

(** ** [SabitSliders]: the shares of the stacked bar *)

Module SabitSliders.
(** The [key] of each entry of [DIMENSIONS]; the labels, icons and colours
    of the entries play no part in the numbers. *)
Definition DIMENSIONS : list Axis := [AxisS; AxisA; AxisB; AxisI; AxisT].

Definition total (values : VectorValues) : R :=
  reduce (fun sum v => sum + v) 0 (vec_values values).

Definition percentages (values : VectorValues) : list R :=
  if Req_dec_T (total values) 0 then map (fun _ => 20) DIMENSIONS
  else map (fun dim => (vec_get dim values / total values) * 100) DIMENSIONS.

Definition hasActiveVectors (values : VectorValues) : bool :=
  is_positive (total values).
End SabitSliders.

(** ** [InteractiveRadar]: from a pointer position to a value *)

Module InteractiveRadar.
Definition DIMENSIONS : list Axis := [AxisS; AxisA; AxisB; AxisI; AxisT].

Definition axis_eqb (k1 k2 : Axis) : bool :=
  match k1, k2 with
  | AxisS, AxisS | AxisA, AxisA | AxisB, AxisB
  | AxisI, AxisI | AxisT, AxisT => true
  | _, _ => false
  end.

(** [arr.findIndex(p)]: the first index whose element passes, else -1. *)
Fixpoint findIndex_from {A : Type} (k : Z) (p : A -> bool) (l : list A) : Z :=
  match l with
  | [] => (-1)%Z
  | x :: l' => if p x then k else findIndex_from (k + 1)%Z p l'
  end.

Definition findIndex {A : Type} (p : A -> bool) (l : list A) : Z :=
  findIndex_from 0%Z p l.

(** The bounding rectangle of the [svg] element, as far as it is read. *)
Record Rect : Type := mkRect {
  left : R;
  top : R
}.

Record Point : Type := mkPoint {
  px : R;
  py : R
}.

Section Geometry.
(** The [dimensions] state. *)
Variables width height : R.

Definition centerX : R := width / 2.
Definition centerY : R := height / 2.
Definition maxRadius : R := Rmin width height * 0.32.

Definition getAngle (index : Z) : R :=
  (IZR index / 5) * PI * 2 - PI / 2.

Definition getPointPosition (index : Z) (value : R) : Point :=
  let angle := getAngle index in
  let radius := value * maxRadius in
  {| px := centerX + cos angle * radius;
     py := centerY + sin angle * radius |}.

(** [svg] is [svgRef.current]: [None] while the element is not mounted. *)
Definition calculateValueFromPosition (svg : option Rect)
           (clientX clientY : R) (dimIndex : Z) : option R :=
  match svg with
  | None => None
  | Some rect =>
      let x := clientX - left rect - centerX in
      let y := clientY - top rect - centerY in
      let angle := getAngle dimIndex in
      let axisX := cos angle in
      let axisY := sin angle in
      let projection := x * axisX + y * axisY in
      let normalizedValue := Rmax 0 (Rmin 1 (projection / maxRadius)) in
      Some (IZR (js_round (normalizedValue * 100)) / 100)
  end.

(** [handlePointerMove]: the vector handed to [onChange], or [None] when
    [onChange] is not called. *)
Definition handlePointerMove (svg : option Rect) (dragging : option Axis)
           (vectors : VectorValues) (clientX clientY : R)
  : option VectorValues :=
  match dragging with
  | None => None
  | Some key =>
      let dimIndex := findIndex (fun d => axis_eqb d key) DIMENSIONS in
      if (dimIndex =? -1)%Z then None
      else
        match calculateValueFromPosition svg clientX clientY dimIndex with
        | Some newValue => Some (vec_set key newValue vectors)
        | None => None
        end
  end.
End Geometry.

Definition hasActiveVectors (vectors : VectorValues) : bool :=
  existsb is_positive (vec_values vectors).
End InteractiveRadar.

(** ** [RecipeDisplay]: the small recipe and its metrics *)

Module RecipeDisplay.
Inductive Category : Type := base | modifier | accent.

Definition is_base (c : Category) : bool :=
  match c with
  | base => true
  | _ => false
  end.

Definition BASE_CAPACITY : R := 45.

(** [vectorInfluence] is a partial record; its entries are kept in the
    order they are written, which is the order [Object.entries] yields. *)
Record Ingredient : Type := mkIngredient {
  name : string;
  shortName : string;
  category : Category;
  baseAmount : R;
  vectorInfluence : list (Axis * R);
  unit : string
}.

Definition INGREDIENTS : list Ingredient :=
  [ mkIngredient "London Dry Gin" "Gin" base 30
                 [(AxisA, 0.3); (AxisT, 0.2); (AxisI, 0.2)] "ml";
    mkIngredient "Bourbon Whiskey" "Bourbon" base 15
                 [(AxisS, 0.3); (AxisB, 0.2); (AxisI, 0.3)] "ml";
    mkIngredient "Monin Syrup" "Syrup" modifier 15
                 [(AxisS, 0.8); (AxisT, 0.1)] "ml";
    mkIngredient "Fresh Lemon" "Lemon" modifier 20
                 [(AxisA, 0.7); (AxisT, 0.2)] "ml";
    mkIngredient "Aromatic Bitters" "Bitters" accent 2
                 [(AxisB, 0.6); (AxisI, 0.3)] "dsh";
    mkIngredient "Soda Water" "Soda" accent 30
                 [(AxisT, 0.5); (AxisA, 0.1)] "ml" ].

(** An entry of the array [calculateRecipe] returns. *)
Record Item : Type := mkItem {
  item_name : string;
  item_shortName : string;
  amount : R;
  item_unit : string;
  item_category : Category
}.

Section CalculateRecipe.
Variable vectors : VectorValues.

Definition maxBaseTotal : R := BASE_CAPACITY * vec_I vectors.

Definition bourbonRatio : R :=
  if (is_positive (vec_B vectors) || is_positive (vec_T vectors))%bool
  then vec_B vectors / (vec_B vectors + vec_T vectors + 0.001)
  else 0.33.

Definition ginRatio : R := 1 - bourbonRatio.

(** One turn of the inner loop over [Object.entries]; the state is
    [(influence, hasActiveVector)]. *)
Definition influence_step (st : R * bool) (entry : Axis * R) : R * bool :=
  let vecValue := vec_get (fst entry) vectors in
  if is_positive vecValue then (fst st + vecValue * snd entry, true)
  else st.

Definition influenceOf (ingredient : Ingredient) : R * bool :=
  fold_left influence_step (vectorInfluence ingredient) (0, false).

(** The [amount] computed in one turn of the outer loop; [None] is the
    [continue]. *)
Definition amountOf (ingredient : Ingredient) : option R :=
  let (influence, hasActiveVector) := influenceOf ingredient in
  if (negb hasActiveVector
      && (0 <? length (vectorInfluence ingredient))%nat)%bool
  then None
  else
    let normalizedInfluence := Rmin (influence / 0.8) 1 in
    Some (if is_base (category ingredient) then
            if (shortName ingredient =? "Gin")%string
            then maxBaseTotal * ginRatio
            else if (shortName ingredient =? "Bourbon")%string
                 then maxBaseTotal * bourbonRatio
                 else 0
          else baseAmount ingredient * normalizedInfluence).

(** One turn of the outer loop on the array being built. *)
Definition recipe_step (recipe : list Item) (ingredient : Ingredient)
  : list Item :=
  match amountOf ingredient with
  | None => recipe
  | Some amt =>
      if Rgt_dec amt 0.1
      then recipe ++ [ {| item_name := name ingredient;
                          item_shortName := shortName ingredient;
                          amount := IZR (js_round (amt * 10)) / 10;
                          item_unit := unit ingredient;
                          item_category := category ingredient |} ]
      else recipe
  end.

Definition calculateRecipe : list Item :=
  fold_left recipe_step INGREDIENTS [].
End CalculateRecipe.



Definition spiritVolume (recipe : list Item) : R :=
  reduce (fun sum item => sum + amount item) 0
         (filter (fun item => is_base (item_category item)) recipe).


(** [totalBase] of the component, shown against [BASE_CAPACITY]. *)
Definition totalBase (vectors : VectorValues) : R :=
  spiritVolume (calculateRecipe vectors).
End RecipeDisplay.

(** ** The Firebase module: lazily created singletons

    The module keeps [app] and [database] in two module-level variables.
    The SDK is outside the repository; what is used of it is that
    [getApps()] lists the apps created so far, that [initializeApp] creates
    one more and returns it, and that [getDatabase] gives the database of an
    app.  An app is identified by its rank in that list. *)

Module Firebase.
Inductive FirebaseApp : Type := App (rank : nat).
Inductive Database : Type := DatabaseOf (owner : FirebaseApp).

Inductive Outcome (A : Type) : Type :=
| Returned (value : A)
| Thrown (message : string).
Arguments Returned {A} value.
Arguments Thrown {A} message.

Record State : Type := mkState {
  window_defined : bool;             (* [typeof window !== "undefined"] *)
  sdk_apps : list FirebaseApp;       (* [getApps()] *)
  app : option FirebaseApp;          (* [let app] *)
  database : option Database         (* [let database] *)
}.

Definition getFirebaseApp (st : State) : State * Outcome FirebaseApp :=
  if negb (window_defined st)
  then (st, Thrown "Firebase can only be initialized on the client side")
  else
    match app st with
    | Some current => (st, Returned current)
    | None =>
        match sdk_apps st with
        | [] =>
            let created := App 0 in
            (mkState (window_defined st) [created] (Some created)
                     (database st),
             Returned created)
        | first :: _ =>
            (mkState (window_defined st) (sdk_apps st) (Some first)
                     (database st),
             Returned first)
        end
    end.

Definition getFirebaseDatabase (st : State) : State * Outcome Database :=
  match database st with
  | Some current => (st, Returned current)
  | None =>
      match getFirebaseApp st with
      | (st', Returned current) =>
          let db := DatabaseOf current in
          (mkState (window_defined st') (sdk_apps st') (app st') (Some db),
           Returned db)
      | (st', Thrown message) => (st', Thrown message)
      end
  end.
End Firebase.

(** * Facts about the array primitives *)

Section ArrayFacts.
Context {A B C : Type}.

Lemma mapi_from_length (f : A -> nat -> B) (l : list A) (k : nat) :
  length (mapi_from k f l) = length l.
Proof.
  revert k; induction l as [|x l IH]; intros k; simpl; [reflexivity|].
  now rewrite IH.
Qed.

(** Reading, at the callback's index, a list that was itself mapped from
    the same array is applying the mapped function to the element. *)
Lemma mapi_from_nth_map (g : A -> C -> B) (h : A -> C) (d : C)
      (pre l : list A) :
  mapi_from (length pre) (fun x k => g x (nth k (map h (pre ++ l)) d)) l
  = map (fun x => g x (h x)) l.
Proof.
  revert pre; induction l as [|x l IH]; intros pre; simpl; [reflexivity|].
  f_equal.
  - rewrite map_app, app_nth2; rewrite length_map; [|lia].
    now rewrite Nat.sub_diag.
  - specialize (IH (pre ++ [x])).
    rewrite length_app, <- app_assoc in IH; simpl in IH.
    now rewrite Nat.add_1_r in IH.
Qed.

Lemma mapi_nth_map (g : A -> C -> B) (h : A -> C) (d : C) (l : list A) :
  mapi (fun x k => g x (nth k (map h l) d)) l = map (fun x => g x (h x)) l.
Proof. exact (mapi_from_nth_map g h d [] l). Qed.
End ArrayFacts.

Lemma reduce_plus_from (l : list R) (init : R) :
  reduce (fun acc val => acc + val) init l = init + Rsum l.
Proof.
  unfold reduce; revert init; induction l as [|x l IH]; intros init; simpl.
  - lra.
  - rewrite IH; lra.
Qed.

Lemma reduce_plus (l : list R) :
  reduce (fun acc val => acc + val) 0 l = Rsum l.
Proof. rewrite reduce_plus_from; lra. Qed.

Lemma Rsum_at_least (l : list R) :
  Forall (fun w => 1 <= w) l -> INR (length l) <= Rsum l.
Proof.
  induction 1 as [|w l Hw _ IH].
  - simpl; lra.
  - change (length (w :: l)) with (S (length l)).
    rewrite S_INR; simpl; lra.
Qed.

Lemma Rsum_scaled {A : Type} (f : A -> R) (k : R) (l : list A) :
  Rsum (map (fun x => f x * k) l) = Rsum (map f l) * k.
Proof.
  induction l as [|x l IH]; simpl; [lra|].
  rewrite IH; lra.
Qed.

Lemma filter_all {A : Type} (p : A -> bool) (l : list A) :
  Forall (fun x => p x = true) l -> filter p l = l.
Proof.
  induction 1 as [|x l Hx _ IH]; simpl; [reflexivity|].
  now rewrite Hx, IH.
Qed.

(** * The engine, step by step *)

Lemma expScores_length (input : SABITInput) :
  length (expScores input) = length (scores input).
Proof. unfold expScores; apply length_map. Qed.

Lemma scores_length (input : SABITInput) :
  length (scores input) = length INGREDIENTS.
Proof. unfold scores; apply length_map. Qed.

Lemma dot_agrees (input : SABITInput) (c : Ingredient) :
  dotProduct input c = Softmax.dot input c.
Proof. reflexivity. Qed.

Lemma sigma_is_12 : sigma = 12.
Proof. unfold sigma; lra. Qed.

Lemma expScores_weights (input : SABITInput) :
  expScores input = map (Softmax.weight input) INGREDIENTS.
Proof.
  unfold expScores, scores; rewrite map_map.
  apply map_ext; intros c; simpl.
  unfold Softmax.weight; now rewrite sigma_is_12, dot_agrees.
Qed.

Lemma sumExpScores_denominator (input : SABITInput) :
  sumExpScores input = Softmax.denominator input.
Proof.
  unfold sumExpScores, Softmax.denominator.
  now rewrite reduce_plus, expScores_weights.
Qed.

(** The index-based read of [expScores] inside the [map] callback picks the
    weight of the very ingredient being mapped. *)
Lemma allocations_by_ingredient (input : SABITInput) :
  allocations input
  = map (fun c => mkPour (ing_name c)
                         (Softmax.weight input c / sumExpScores input
                          * totalVolume input))
        INGREDIENTS.
Proof.
  unfold allocations, expScores.
  rewrite (mapi_nth_map
             (fun sc w => mkPour (scored_name sc)
                                 (w / sumExpScores input * totalVolume input))
             (fun sc => exp (score sc * sigma)) 0 (scores input)).
  unfold scores; rewrite map_map.
  apply map_ext; intros c; simpl.
  unfold Softmax.weight; now rewrite sigma_is_12, dot_agrees.
Qed.

Lemma weight_at_least_1 (input : SABITInput) (c : Ingredient) :
  1 <= Softmax.weight input c.
Proof.
  unfold Softmax.weight.
  set (x := Rmax 0 (Softmax.dot input c) * 12).
  assert (Hx : 0 <= x).
  { unfold x. pose proof (Rmax_l 0 (Softmax.dot input c)). lra. }
  destruct (Req_dec x 0) as [-> | Hnz].
  - rewrite exp_0; lra.
  - pose proof (exp_ineq1 x Hnz); lra.
Qed.

Lemma expScores_at_least_1 (input : SABITInput) :
  Forall (fun w => 1 <= w) (expScores input).
Proof.
  rewrite expScores_weights, Forall_map.
  apply Forall_forall; intros c _; apply weight_at_least_1.
Qed.

Lemma sumExpScores_at_least_15 (input : SABITInput) :
  15 <= sumExpScores input.
Proof.
  unfold sumExpScores; rewrite reduce_plus.
  pose proof (Rsum_at_least _ (expScores_at_least_1 input)) as H.
  rewrite expScores_length, scores_length in H.
  change (length INGREDIENTS) with 15%nat in H.
  rewrite INR_IZR_INZ in H; simpl in H; exact H.
Qed.

Lemma sumExpScores_pos (input : SABITInput) : 0 < sumExpScores input.
Proof. pose proof (sumExpScores_at_least_15 input); lra. Qed.

(** * [sort] with a comparator of the form [(a, b) => key b - key a] *)

Section SortByKeyDescending.
Context {A : Type}.
Variable key : A -> R.

#[local] Abbreviation cmp := (descending_by key).
#[local] Abbreviation ge_key := (key_ge key).
#[local] Abbreviation tied := (tied_at key).

Lemma comes_first_true (x y : A) :
  comes_first cmp x y = true <-> key y <= key x.
Proof.
  unfold comes_first, cmp; destruct (Rle_dec (key y - key x) 0);
    split; intros H; try reflexivity; try discriminate; lra.
Qed.

Lemma comes_first_false (x y : A) :
  comes_first cmp x y = false <-> key x < key y.
Proof.
  unfold comes_first, cmp; destruct (Rle_dec (key y - key x) 0);
    split; intros H; try reflexivity; try discriminate; lra.
Qed.

Lemma sort_insert_perm (x : A) (l : list A) :
  Permutation (sort_insert cmp x l) (x :: l).
Proof.
  induction l as [|y l IH]; simpl; [reflexivity|].
  destruct (comes_first cmp x y); [reflexivity|].
  rewrite IH; apply perm_swap.
Qed.

Lemma sort_perm (l : list A) : Permutation (sort cmp l) l.
Proof.
  induction l as [|x l IH]; simpl; [reflexivity|].
  rewrite sort_insert_perm; now constructor.
Qed.

Lemma sort_insert_sorted (x : A) (l : list A) :
  StronglySorted ge_key l -> StronglySorted ge_key (sort_insert cmp x l).
Proof.
  induction 1 as [|y l Hl IH Hy]; simpl.
  - repeat constructor.
  - destruct (comes_first cmp x y) eqn:E.
    + apply comes_first_true in E.
      constructor; [now constructor|].
      constructor; [unfold ge_key; lra|].
      eapply Forall_impl; [|exact Hy].
      unfold ge_key; intros z Hz; lra.
    + apply comes_first_false in E.
      constructor; [exact IH|].
      eapply Permutation_Forall;
        [symmetry; apply sort_insert_perm|].
      constructor; [unfold ge_key; lra|exact Hy].
Qed.

Lemma sort_sorted (l : list A) : StronglySorted ge_key (sort cmp l).
Proof.
  induction l as [|x l IH]; simpl; [constructor|].
  now apply sort_insert_sorted.
Qed.

(** Stability: among the elements of one key the order is untouched. *)
Lemma sort_insert_tied (v : R) (x : A) (l : list A) :
  filter (tied v) (sort_insert cmp x l) = filter (tied v) (x :: l).
Proof.
  induction l as [|y l IH]; [reflexivity|].
  cbn [sort_insert].
  destruct (comes_first cmp x y) eqn:E; [reflexivity|].
  apply comes_first_false in E.
  cbn [filter] in *; rewrite IH.
  unfold tied.
  destruct (Req_dec_T (key x) v), (Req_dec_T (key y) v);
    try reflexivity; lra.
Qed.

Lemma sort_tied (v : R) (l : list A) :
  filter (tied v) (sort cmp l) = filter (tied v) l.
Proof.
  induction l as [|x l IH]; [reflexivity|].
  cbn [sort]; rewrite sort_insert_tied.
  cbn [filter]; now rewrite IH.
Qed.

(** A list already in descending order is returned as it is. *)
Lemma sort_sorted_id (l : list A) :
  StronglySorted ge_key l -> sort cmp l = l.
Proof.
  induction 1 as [|x l Hl IH Hx]; [reflexivity|].
  cbn [sort]; rewrite IH.
  destruct l as [|y l]; [reflexivity|].
  cbn [sort_insert].
  replace (comes_first cmp x y) with true; [reflexivity|].
  symmetry; apply comes_first_true.
  inversion Hx; subst; unfold ge_key in *; lra.
Qed.
Lemma tied_own_key (x : A) : tied (key x) x = true.
Proof. unfold tied; destruct (Req_dec_T (key x) (key x)); tauto. Qed.

(** The order above is the only one a stable sort can return: a list in
    descending order that keeps every class of tied elements as it was
    in [l] is [sort cmp l], whatever algorithm produced it. *)
Lemma sorted_stable_unique (l l' : list A) :
  StronglySorted ge_key l -> StronglySorted ge_key l' ->
  (forall v, filter (tied v) l' = filter (tied v) l) ->
  l' = l.
Proof.
  revert l'; induction l as [|x l IH]; intros [|x' l'] Hl Hl' Ht.
  - reflexivity.
  - specialize (Ht (key x')); cbn [filter] in Ht.
    rewrite tied_own_key in Ht; discriminate.
  - specialize (Ht (key x)); cbn [filter] in Ht.
    rewrite tied_own_key in Ht; discriminate.
  - apply StronglySorted_inv in Hl as [Hl Hx].
    apply StronglySorted_inv in Hl' as [Hl' Hx'].
    assert (Hge : forall (u u' : A) (m m' : list A),
               Forall (ge_key u') m' ->
               filter (tied (key u)) (u' :: m')
               = filter (tied (key u)) (u :: m) ->
               key u' >= key u).
    { intros u u' m m' Hu' E.
      assert (Hin : In u (u' :: m')).
      { apply (proj1 (filter_In (tied (key u)) u (u' :: m'))).
        rewrite E; cbn [filter]; rewrite tied_own_key; now left. }
      destruct Hin as [-> | Hin]; [lra|].
      exact (proj1 (Forall_forall _ _) Hu' u Hin). }
    assert (K : key x' = key x).
    { pose proof (Hge x x' l l' Hx' (Ht (key x))).
      pose proof (Hge x' x l' l Hx (eq_sym (Ht (key x')))). lra. }
    assert (E : x' = x).
    { specialize (Ht (key x)); cbn [filter] in Ht.
      rewrite tied_own_key, <- K, tied_own_key in Ht.
      now injection Ht. }
    subst x'; f_equal; apply IH; try assumption.
    intros v; specialize (Ht v); cbn [filter] in Ht.
    destruct (tied v x); [now injection Ht | exact Ht].
Qed.

Lemma stable_sort_is_sort (l l' : list A) :
  StronglySorted ge_key l' ->
  (forall v, filter (tied v) l' = filter (tied v) l) ->
  l' = sort cmp l.
Proof.
  intros Hs Ht; apply sorted_stable_unique;
    [apply sort_sorted | exact Hs |].
  intros v; now rewrite sort_tied.
Qed.
End SortByKeyDescending.

Example sort_keeps_ties_in_order :
  sort by_ml_desc [mkPour "a" 1; mkPour "b" 3; mkPour "c" 1; mkPour "d" 3]
  = [mkPour "b" 3; mkPour "d" 3; mkPour "a" 1; mkPour "c" 1].
Proof.
  symmetry; apply (stable_sort_is_sort ml).
  - repeat (apply SSorted_cons || apply SSorted_nil
            || apply Forall_cons || apply Forall_nil);
      unfold key_ge; simpl; lra.
  - intros v; unfold tied_at; cbn [filter ml].
    destruct (Req_dec_T 1 v), (Req_dec_T 3 v); try reflexivity; lra.
Qed.

(** * Relative order of two entries *)

Section OccursBefore.
Context {A B : Type}.

Lemma filter_cons_inv (p : A -> bool) (l : list A) (x : A) (r : list A) :
  filter p l = x :: r ->
  exists la lb, l = la ++ x :: lb /\ filter p lb = r.
Proof.
  induction l as [|z l IH]; simpl; [discriminate|].
  destruct (p z).
  - intros [= -> <-]; now exists [], l.
  - intros H; destruct (IH H) as (la & lb & -> & Hlb).
    now exists (z :: la), lb.
Qed.

Lemma filter_app_inv (p : A -> bool) (l1 r l : list A) :
  filter p l = l1 ++ r ->
  exists la lb, l = la ++ lb /\ filter p lb = r.
Proof.
  revert l; induction l1 as [|z l1 IH]; intros l H.
  - now exists [], l.
  - apply filter_cons_inv in H as (la & lb & -> & Hlb).
    destruct (IH _ Hlb) as (la' & lb' & -> & Hr).
    exists (la ++ z :: la'), lb'; split; [|exact Hr].
    now rewrite <- app_assoc.
Qed.

Lemma occurs_before_filter_elim (p : A -> bool) (x y : A) (l : list A) :
  occurs_before x y (filter p l) -> occurs_before x y l.
Proof.
  intros (l1 & l2 & l3 & H).
  apply filter_app_inv in H as (la & lb & -> & H).
  apply filter_cons_inv in H as (lc & ld & -> & H).
  apply filter_app_inv in H as (le & lf & -> & H).
  apply filter_cons_inv in H as (lg & lh & -> & _).
  exists (la ++ lc), (le ++ lg), lh.
  now rewrite <- !app_assoc.
Qed.

Lemma occurs_before_filter_intro (p : A -> bool) (x y : A) (l : list A) :
  p x = true -> p y = true ->
  occurs_before x y l -> occurs_before x y (filter p l).
Proof.
  intros Hx Hy (l1 & l2 & l3 & ->).
  exists (filter p l1), (filter p l2), (filter p l3).
  rewrite filter_app; cbn [filter]; rewrite Hx.
  rewrite filter_app; cbn [filter]; now rewrite Hy.
Qed.

Lemma occurs_before_map_elim (g : A -> B) (x y : B) (l : list A) :
  occurs_before x y (map g l) ->
  exists cx cy, g cx = x /\ g cy = y /\ occurs_before cx cy l.
Proof.
  intros (l1 & l2 & l3 & H).
  apply map_eq_app in H as (la & lb & -> & _ & H).
  apply map_eq_cons in H as (cx & lc & -> & Hx & H).
  apply map_eq_app in H as (ld & le & -> & _ & H).
  apply map_eq_cons in H as (cy & lf & -> & Hy & _).
  exists cx, cy; repeat split; try assumption.
  now exists la, ld, lf.
Qed.
End OccursBefore.

(** * [toFixed1] on a number whose rounding is known *)

Lemma tenths_of_nonneg (x : R) (z : Z) :
  0 <= x -> IZR z <= x * 10 + / 2 < IZR z + 1 -> tenths x = z.
Proof.
  intros Hx Hz; unfold tenths.
  rewrite Rabs_right by lra.
  now apply Zfloor_eq.
Qed.

Lemma toFixed1_of_nonneg (x : R) (z : Z) :
  0 <= x -> IZR z <= x * 10 + / 2 < IZR z + 1 ->
  toFixed1 x
  = (decimal_digits (z / 10) ++ "." ++ decimal_digits (z mod 10))%string.
Proof.
  intros Hx Hz; unfold toFixed1.
  rewrite (tenths_of_nonneg x z Hx Hz).
  destruct (Rlt_dec x 0); [lra|reflexivity].
Qed.

Lemma toFixed1_60 : toFixed1 60 = "60.0"%string.
Proof. rewrite (toFixed1_of_nonneg 60 600); [reflexivity|lra|lra]. Qed.

Lemma toFixed1_150 : toFixed1 150 = "150.0"%string.
Proof. rewrite (toFixed1_of_nonneg 150 1500); [reflexivity|lra|lra]. Qed.

Lemma toFixed1_240 : toFixed1 240 = "240.0"%string.
Proof. rewrite (toFixed1_of_nonneg 240 2400); [reflexivity|lra|lra]. Qed.

Lemma toFixed1_4 : toFixed1 4 = "4.0"%string.
Proof. rewrite (toFixed1_of_nonneg 4 40); [reflexivity|lra|lra]. Qed.

Lemma toFixed1_of_neg (x : R) (z : Z) :
  x < 0 -> IZR z <= - x * 10 + / 2 < IZR z + 1 ->
  toFixed1 x
  = ("-" ++ decimal_digits (z / 10) ++ "." ++ decimal_digits (z mod 10))%string.
Proof.
  intros Hx Hz; unfold toFixed1, tenths.
  rewrite Rabs_left by lra.
  rewrite (Zfloor_eq z) by exact Hz.
  destruct (Rlt_dec x 0); [reflexivity|lra].
Qed.

Example toFixed1_rounds_to_nearest : toFixed1 71.07 = "71.1"%string.
Proof. rewrite (toFixed1_of_nonneg 71.07 711); [reflexivity|lra|lra]. Qed.

Example toFixed1_tie_goes_up : toFixed1 0.25 = "0.3"%string.
Proof. rewrite (toFixed1_of_nonneg 0.25 3); [reflexivity|lra|lra]. Qed.

Example toFixed1_below_one_tenth : toFixed1 0.04 = "0.0"%string.
Proof. rewrite (toFixed1_of_nonneg 0.04 0); [reflexivity|lra|lra]. Qed.

Example toFixed1_negative : toFixed1 (-12.34) = "-12.3"%string.
Proof. rewrite (toFixed1_of_neg (-12.34) 123); [reflexivity|lra|lra]. Qed.

Lemma printed_tenths_mono (x y : R) :
  x <= y -> (printed_tenths x <= printed_tenths y)%Z.
Proof.
  intros Hxy; unfold printed_tenths, tenths.
  assert (Hfloor : forall u, 0 <= u -> (0 <= Zfloor (u * 10 + / 2))%Z).
  { intros u Hu; apply (Zfloor_lub 0); simpl; lra. }
  destruct (Rlt_dec x 0) as [Hx|Hx], (Rlt_dec y 0) as [Hy|Hy].
  - rewrite !Rabs_left by lra.
    apply Z.opp_le_mono; rewrite !Z.opp_involutive.
    apply Zfloor_le; lra.
  - pose proof (Hfloor (Rabs x) (Rabs_pos x)).
    pose proof (Hfloor (Rabs y) (Rabs_pos y)). lia.
  - lra.
  - rewrite !Rabs_right by lra. apply Zfloor_le; lra.
Qed.

(** * The filter and the sort of the engine *)

Lemma at_least_1ml_true (item : Pour) :
  at_least_1ml item = true <-> 1 <= ml item.
Proof.
  unfold at_least_1ml; destruct (Rge_dec (ml item) 1.0);
    split; intros H; try reflexivity; try discriminate; lra.
Qed.

Lemma rawRecipe_perm (input : SABITInput) :
  Permutation (rawRecipe input) (filter at_least_1ml (allocations input)).
Proof. apply (sort_perm ml). Qed.

Lemma rawRecipe_In (input : SABITInput) (item : Pour) :
  In item (rawRecipe input) <->
  In item (allocations input) /\ 1 <= ml item.
Proof.
  rewrite <- at_least_1ml_true, <- filter_In.
  split; apply Permutation_in;
    [|symmetry]; apply rawRecipe_perm.
Qed.

Lemma rawRecipe_sorted (input : SABITInput) :
  StronglySorted (fun x y => ml x >= ml y) (rawRecipe input).
Proof. apply (sort_sorted ml). Qed.

Lemma rawRecipe_stable (input : SABITInput) (v : R) :
  filter (poured_at v) (rawRecipe input)
  = filter (poured_at v) (filter at_least_1ml (allocations input)).
Proof. apply (sort_tied ml). Qed.

(** Whatever stable algorithm the runtime's [sort] uses, it returns
    [rawRecipe]. *)
Lemma rawRecipe_is_the_stable_order (input : SABITInput) (l : list Pour) :
  StronglySorted (fun x y => ml x >= ml y) l ->
  (forall v,
      filter (poured_at v) l
      = filter (poured_at v) (filter at_least_1ml (allocations input))) ->
  l = rawRecipe input.
Proof. apply (stable_sort_is_sort ml). Qed.

Lemma poured_at_true (v : R) (item : Pour) :
  poured_at v item = true <-> ml item = v.
Proof.
  unfold poured_at, tied_at; destruct (Req_dec_T (ml item) v);
    split; intros H; try reflexivity; try discriminate; tauto.
Qed.

(** Two entries of the recipe with the same amount stand in the order of
    their ingredients in the catalog. *)
Lemma rawRecipe_ties_in_catalog_order (input : SABITInput) (x y : Pour) :
  ml x = ml y ->
  occurs_before x y (rawRecipe input) ->
  exists cx cy,
    name x = ing_name cx /\ name y = ing_name cy /\
    occurs_before cx cy INGREDIENTS.
Proof.
  intros Hml Hxy.
  apply (occurs_before_filter_intro (poured_at (ml x))) in Hxy;
    [|now apply poured_at_true..].
  rewrite rawRecipe_stable in Hxy.
  do 2 apply occurs_before_filter_elim in Hxy.
  rewrite allocations_by_ingredient in Hxy.
  apply occurs_before_map_elim in Hxy as (cx & cy & <- & <- & H).
  now exists cx, cy.
Qed.

(** * The all-zero input *)

Lemma weight_zeroInput (c : Ingredient) : Softmax.weight zeroInput c = 1.
Proof.
  unfold Softmax.weight, Softmax.dot; simpl.
  replace (0 * ing_s c + 0 * ing_a c + 0 * ing_b c + 0 * ing_i c
           + 0 * ing_t c) with 0 by ring.
  rewrite Rmax_left by lra.
  rewrite Rmult_0_l; apply exp_0.
Qed.

Lemma sumExpScores_zeroInput : sumExpScores zeroInput = 15.
Proof.
  rewrite sumExpScores_denominator; unfold Softmax.denominator.
  rewrite (map_ext _ (fun _ => 1) weight_zeroInput).
  simpl; lra.
Qed.

Lemma allocations_zeroInput :
  allocations zeroInput = map (fun c => mkPour (ing_name c) 4) INGREDIENTS.
Proof.
  rewrite allocations_by_ingredient.
  apply map_ext; intros c; f_equal.
  rewrite weight_zeroInput, sumExpScores_zeroInput.
  unfold totalVolume; simpl; lra.
Qed.

Lemma constant_pours_sorted {A : Type} (f : A -> string) (v : R)
      (l : list A) :
  StronglySorted (fun x y => ml x >= ml y)
                 (map (fun c => mkPour (f c) v) l).
Proof.
  induction l as [|c l IH]; simpl; constructor; [exact IH|].
  rewrite Forall_map; apply Forall_forall; intros; simpl; lra.
Qed.

Lemma rawRecipe_zeroInput :
  rawRecipe zeroInput = map (fun c => mkPour (ing_name c) 4) INGREDIENTS.
Proof.
  unfold rawRecipe; rewrite allocations_zeroInput, filter_all.
  - apply (sort_sorted_id ml), constant_pours_sorted.
  - rewrite Forall_map; apply Forall_forall; intros c _.
    apply at_least_1ml_true; simpl; lra.
Qed.

(** * Clamping *)

Lemma clamp01_id (x : R) : unit_interval x -> clamp01 x = x.
Proof.
  intros [H0 H1]; unfold clamp01.
  rewrite Rmin_right by lra. now rewrite Rmax_right by lra.
Qed.

Lemma clamp01_above (x : R) : 1 <= x -> clamp01 x = 1.
Proof.
  intros H; unfold clamp01.
  rewrite Rmin_left by lra. now rewrite Rmax_right by lra.
Qed.

Lemma clampInput_id (input : SABITInput) :
  engine_domain input -> clampInput input = input.
Proof.
  intros (Hs & Ha & Hb & Hi & Ht); destruct input as [xs xa xb xi xt].
  unfold clampInput; simpl in *.
  now rewrite !clamp01_id.
Qed.

(** * The properties of the engine *)

(** C1.  For every input with its five components in [[0,1]], the amount
    allocated to each catalog ingredient before filtering is the softmax
    (temperature 12) of the zero-floored dot products, times the total
    volume: [exp (max 0 (dot input c_i) * 12) / sum_j exp (max 0 (dot input
    c_j) * 12) * volume], entry by entry in catalog order. *)
Theorem allocations_are_softmax (input : SABITInput) :
  engine_domain input ->
  allocations input
  = map (fun c => mkPour (ing_name c)
                         (Softmax.amount (totalVolume input) input c))
        INGREDIENTS.
Proof.
  intros _.
  rewrite allocations_by_ingredient.
  apply map_ext; intros c.
  unfold Softmax.amount; now rewrite sumExpScores_denominator.
Qed.

Lemma allocations_are_softmax_witness :
  engine_domain (mkInput 1 0 0 0 0) /\
  allocations (mkInput 1 0 0 0 0)
  = map (fun c => mkPour (ing_name c)
                    (Softmax.amount (totalVolume (mkInput 1 0 0 0 0))
                                    (mkInput 1 0 0 0 0) c))
        INGREDIENTS.
Proof.
  assert (H : engine_domain (mkInput 1 0 0 0 0)).
  { unfold engine_domain, unit_interval; simpl; lra. }
  split; [exact H|].
  apply (allocations_are_softmax (mkInput 1 0 0 0 0) H).
Defined.

(** C2.  The total volume is [60 + 90 * T], with [T] the Texture component
    of the input, and the result carries it printed to one decimal; Texture
    0 gives "60.0" and Texture 1 gives "150.0" whatever the other four
    components are, and two inputs with the same Texture have the same
    total volume. *)
Theorem totalVolume_affine_in_texture :
  (forall input, totalVolume input = 60 + 90 * t input) /\
  (forall input,
      result_totalVolume (calculateDynamicRecipe input)
      = toFixed1 (60 + 90 * t input)) /\
  (forall xs xa xb xi,
      totalVolume (mkInput xs xa xb xi 0) = 60 /\
      result_totalVolume (calculateDynamicRecipe (mkInput xs xa xb xi 0))
      = "60.0"%string) /\
  (forall xs xa xb xi,
      totalVolume (mkInput xs xa xb xi 1) = 150 /\
      result_totalVolume (calculateDynamicRecipe (mkInput xs xa xb xi 1))
      = "150.0"%string) /\
  (forall xs xa xb xi ys ya yb yi xt,
      totalVolume (mkInput xs xa xb xi xt)
      = totalVolume (mkInput ys ya yb yi xt) /\
      result_totalVolume (calculateDynamicRecipe (mkInput xs xa xb xi xt))
      = result_totalVolume (calculateDynamicRecipe (mkInput ys ya yb yi xt))).
Proof.
  assert (V0 : forall xs xa xb xi, totalVolume (mkInput xs xa xb xi 0) = 60).
  { intros; unfold totalVolume; simpl; lra. }
  assert (V1 : forall xs xa xb xi, totalVolume (mkInput xs xa xb xi 1) = 150).
  { intros; unfold totalVolume; simpl; lra. }
  split; [intros input; unfold totalVolume; lra|].
  split; [intros input; unfold calculateDynamicRecipe, totalVolume; simpl;
          f_equal; lra|].
  split.
  { intros xs xa xb xi; split; [apply V0|].
    cbn [calculateDynamicRecipe result_totalVolume].
    rewrite V0; apply toFixed1_60. }
  split.
  { intros xs xa xb xi; split; [apply V1|].
    cbn [calculateDynamicRecipe result_totalVolume].
    rewrite V1; apply toFixed1_150. }
  intros xs xa xb xi ys ya yb yi xt.
  split; unfold calculateDynamicRecipe, totalVolume; simpl; f_equal.
Qed.

(** C3, as claimed, fails: nothing in [calculateDynamicRecipe] clamps.  With
    Texture 2 the total volume is 240, printed "240.0", while the clamped
    input gives 150, printed "150.0"; the two results differ and 240 is
    outside [[60,150]]. *)
Lemma texture_above_1_is_not_clamped :
  totalVolume (mkInput 0 0 0 0 2) = 240 /\
  totalVolume (clampInput (mkInput 0 0 0 0 2)) = 150 /\
  result_totalVolume (calculateDynamicRecipe (mkInput 0 0 0 0 2))
  = "240.0"%string /\
  result_totalVolume (calculateDynamicRecipe (clampInput (mkInput 0 0 0 0 2)))
  = "150.0"%string /\
  calculateDynamicRecipe (mkInput 0 0 0 0 2)
  <> calculateDynamicRecipe (clampInput (mkInput 0 0 0 0 2)) /\
  ~ (60 <= totalVolume (mkInput 0 0 0 0 2) <= 150) /\
  ~ (forall input,
        calculateDynamicRecipe input
        = calculateDynamicRecipe (clampInput input) /\
        60 <= totalVolume input <= 150).
Proof.
  assert (V : totalVolume (mkInput 0 0 0 0 2) = 240).
  { unfold totalVolume; simpl; lra. }
  assert (W : totalVolume (clampInput (mkInput 0 0 0 0 2)) = 150).
  { unfold totalVolume, clampInput; simpl.
    rewrite clamp01_above by lra; lra. }
  assert (P : result_totalVolume (calculateDynamicRecipe (mkInput 0 0 0 0 2))
              = "240.0"%string).
  { cbn [calculateDynamicRecipe result_totalVolume].
    rewrite V; apply toFixed1_240. }
  assert (Q : result_totalVolume
                (calculateDynamicRecipe (clampInput (mkInput 0 0 0 0 2)))
              = "150.0"%string).
  { cbn [calculateDynamicRecipe result_totalVolume].
    rewrite W; apply toFixed1_150. }
  assert (N : ~ (60 <= totalVolume (mkInput 0 0 0 0 2) <= 150)).
  { rewrite V; lra. }
  repeat split; try assumption.
  - intros E; apply (f_equal result_totalVolume) in E.
    rewrite P, Q in E; discriminate.
  - intros H; exact (N (proj2 (H (mkInput 0 0 0 0 2)))).
Qed.

(** C3, amended.  On an input whose five components lie in [[0,1]] the
    result is the result on the clamped input (clamping changes nothing
    there) and the total volume lies in [[60,150]]. *)
Theorem in_domain_result_and_volume (input : SABITInput) :
  engine_domain input ->
  calculateDynamicRecipe input = calculateDynamicRecipe (clampInput input) /\
  60 <= totalVolume input <= 150.
Proof.
  intros H; split.
  - now rewrite clampInput_id.
  - destruct H as (_ & _ & _ & _ & [H0 H1]).
    unfold totalVolume; lra.
Qed.

Lemma in_domain_result_and_volume_witness :
  engine_domain (mkInput 0.2 0.4 0.6 0.8 1) /\
  calculateDynamicRecipe (mkInput 0.2 0.4 0.6 0.8 1)
  = calculateDynamicRecipe (clampInput (mkInput 0.2 0.4 0.6 0.8 1)) /\
  60 <= totalVolume (mkInput 0.2 0.4 0.6 0.8 1) <= 150.
Proof.
  assert (H : engine_domain (mkInput 0.2 0.4 0.6 0.8 1)).
  { unfold engine_domain, unit_interval; simpl; lra. }
  split; [exact H|].
  apply (in_domain_result_and_volume (mkInput 0.2 0.4 0.6 0.8 1) H).
Defined.

(** * The catalog *)

Lemma catalog_intensity_below_1 :
  Forall (fun c => component AxisI c <= 0.95) INGREDIENTS.
Proof.
  unfold INGREDIENTS; repeat (apply Forall_cons || apply Forall_nil);
    simpl; lra.
Qed.

(** C4, as claimed, fails on the Intensity axis: no catalog entry has
    Intensity 1.0 (the largest is 0.95). *)
Lemma no_intensity_reference_entry :
  ~ axis_has_reference AxisI /\
  ~ (length INGREDIENTS = 15%nat /\
     Forall components_in_range INGREDIENTS /\
     forall ax, axis_has_reference ax).
Proof.
  assert (N : ~ axis_has_reference AxisI).
  { intros (c & Hin & H1).
    pose proof (proj1 (Forall_forall _ _) catalog_intensity_below_1 c Hin)
      as Hle.
    cbv beta in Hle; rewrite H1 in Hle; lra. }
  split; [exact N|].
  intros (_ & _ & H); exact (N (H AxisI)).
Qed.

(** C4, amended.  The catalog has exactly 15 entries, every component of
    every entry lies in [[0,1]], and on each of the axes S, A, B and T some
    entry has exactly 1.0; on the axis I every entry is at most 0.95, the
    value of the first entry. *)
Theorem catalog_shape :
  length INGREDIENTS = 15%nat /\
  Forall components_in_range INGREDIENTS /\
  axis_has_reference AxisS /\
  axis_has_reference AxisA /\
  axis_has_reference AxisB /\
  axis_has_reference AxisT /\
  Forall (fun c => component AxisI c <= 0.95) INGREDIENTS /\
  (exists c, nth_error INGREDIENTS 0 = Some c /\ component AxisI c = 0.95).
Proof.
  split; [reflexivity|].
  split.
  { unfold INGREDIENTS; repeat (apply Forall_cons || apply Forall_nil);
      intros []; unfold unit_interval; simpl; lra. }
  split.
  { exists (nth 10 INGREDIENTS (mkIngredient "" 0 0 0 0 0)).
    split; [simpl; tauto | simpl; lra]. }
  split.
  { exists (nth 9 INGREDIENTS (mkIngredient "" 0 0 0 0 0)).
    split; [simpl; tauto | simpl; lra]. }
  split.
  { exists (nth 4 INGREDIENTS (mkIngredient "" 0 0 0 0 0)).
    split; [simpl; tauto | simpl; lra]. }
  split.
  { exists (nth 14 INGREDIENTS (mkIngredient "" 0 0 0 0 0)).
    split; [simpl; tauto | simpl; lra]. }
  split; [exact catalog_intensity_below_1|].
  eexists; split; [reflexivity | simpl; lra].
Qed.

(** * The recipe list *)

(** C5.  The recipe returned is the unrounded recipe printed entry by
    entry; the unrounded recipe holds exactly the allocations of at least
    1.0, is in descending order of amount, and keeps entries of equal amount
    in the order of the catalog (the allocations are in catalog order, and
    for every amount [v] the entries poured at [v] form the same sequence
    in the recipe as among the allocations). *)
Theorem recipe_filtered_sorted_stable (input : SABITInput) :
  result_recipe (calculateDynamicRecipe input)
  = map (fun r => mkItem (name r) (toFixed1 (ml r))) (rawRecipe input) /\
  (forall item,
      In item (rawRecipe input) <->
      In item (allocations input) /\ 1 <= ml item) /\
  Forall (fun item => 1 <= ml item) (rawRecipe input) /\
  StronglySorted (fun x y => ml x >= ml y) (rawRecipe input) /\
  map name (allocations input) = map ing_name INGREDIENTS /\
  (forall v,
      filter (poured_at v) (rawRecipe input)
      = filter (poured_at v) (filter at_least_1ml (allocations input))) /\
  (forall x y,
      ml x = ml y ->
      occurs_before x y (rawRecipe input) ->
      exists cx cy,
        name x = ing_name cx /\ name y = ing_name cy /\
        occurs_before cx cy INGREDIENTS).
Proof.
  split; [reflexivity|].
  split; [apply rawRecipe_In|].
  split; [apply Forall_forall; intros item H; now apply rawRecipe_In in H|].
  split; [apply rawRecipe_sorted|].
  split; [rewrite allocations_by_ingredient, map_map; now apply map_ext|].
  split; [apply rawRecipe_stable|].
  apply rawRecipe_ties_in_catalog_order.
Qed.

(** C6.  On the all-zero input the engine returns total volume "60.0" and
    all 15 catalog ingredients, in catalog order, each at "4.0". *)
Theorem zero_input_recipe :
  calculateDynamicRecipe zeroInput
  = {| result_totalVolume := "60.0";
       result_recipe := map (fun c => mkItem (ing_name c) "4.0") INGREDIENTS |}
  /\ length (result_recipe (calculateDynamicRecipe zeroInput)) = 15%nat
  /\ totalVolume zeroInput = 60
  /\ allocations zeroInput
     = map (fun c => mkPour (ing_name c) 4) INGREDIENTS.
Proof.
  assert (V : totalVolume zeroInput = 60).
  { unfold totalVolume; simpl; lra. }
  assert (E : calculateDynamicRecipe zeroInput
              = {| result_totalVolume := "60.0";
                   result_recipe :=
                     map (fun c => mkItem (ing_name c) "4.0") INGREDIENTS |}).
  { unfold calculateDynamicRecipe.
    rewrite V, toFixed1_60, rawRecipe_zeroInput, map_map.
    f_equal; apply map_ext; intros c; cbn [name ml].
    now rewrite toFixed1_4. }
  split; [exact E|].
  split; [rewrite E; cbn [result_recipe]; now rewrite length_map|].
  split; [exact V | exact allocations_zeroInput].
Qed.

(** C7.  The unfiltered, unrounded amounts of the 15 catalog ingredients
    add up to the total volume. *)
Theorem allocations_sum_to_totalVolume (input : SABITInput) :
  Rsum (map ml (allocations input)) = totalVolume input /\
  length (allocations input) = 15%nat.
Proof.
  split.
  - rewrite allocations_by_ingredient, map_map; cbn [ml].
    pose proof (sumExpScores_pos input) as Hpos.
    rewrite (Rsum_scaled
               (fun c => Softmax.weight input c / sumExpScores input)
               (totalVolume input)).
    unfold Rdiv.
    rewrite (Rsum_scaled (Softmax.weight input) (/ sumExpScores input)).
    fold (Softmax.denominator input).
    rewrite <- sumExpScores_denominator.
    field; lra.
  - rewrite allocations_by_ingredient, length_map; reflexivity.
Qed.

(** C8.  Two inputs that agree on S, A, B and I and whose Texture values
    satisfy [t1 <= t2] have total volumes in the same order, and so are the
    numbers printed for them. *)
Theorem totalVolume_monotone_in_texture (x y : SABITInput) :
  s x = s y -> a x = a y -> b x = b y -> i x = i y ->
  t x <= t y ->
  totalVolume x <= totalVolume y /\
  (printed_tenths (totalVolume x) <= printed_tenths (totalVolume y))%Z.
Proof.
  intros _ _ _ _ Ht.
  assert (H : totalVolume x <= totalVolume y).
  { unfold totalVolume; lra. }
  split; [exact H | now apply printed_tenths_mono].
Qed.

Lemma totalVolume_monotone_in_texture_witness :
  t (mkInput 0.2 0.3 0.4 0.5 0.25) <= t (mkInput 0.2 0.3 0.4 0.5 0.75) /\
  totalVolume (mkInput 0.2 0.3 0.4 0.5 0.25)
  <= totalVolume (mkInput 0.2 0.3 0.4 0.5 0.75) /\
  (printed_tenths (totalVolume (mkInput 0.2 0.3 0.4 0.5 0.25))
   <= printed_tenths (totalVolume (mkInput 0.2 0.3 0.4 0.5 0.75)))%Z.
Proof.
  assert (Ht : t (mkInput 0.2 0.3 0.4 0.5 0.25)
               <= t (mkInput 0.2 0.3 0.4 0.5 0.75)) by (simpl; lra).
  split; [exact Ht|].
  apply (totalVolume_monotone_in_texture
           (mkInput 0.2 0.3 0.4 0.5 0.25) (mkInput 0.2 0.3 0.4 0.5 0.75)
           eq_refl eq_refl eq_refl eq_refl Ht).
Defined.

(** C9.  [vectorsToSABIT] divides each of the five components by 100 and
    does nothing else: the all-zero display vector gives the all-zero
    engine vector, the all-100 one gives all ones, and a component outside
    [[0,100]] is divided like any other. *)
Theorem vectorsToSABIT_divides_by_100 :
  (forall d,
      vectorsToSABIT d
      = mkInput (vec_S d / 100) (vec_A d / 100) (vec_B d / 100)
                (vec_I d / 100) (vec_T d / 100)) /\
  vectorsToSABIT (mkVectors 0 0 0 0 0) = mkInput 0 0 0 0 0 /\
  vectorsToSABIT (mkVectors 100 100 100 100 100) = mkInput 1 1 1 1 1 /\
  vectorsToSABIT (mkVectors 250 (-50) 0 100 1000) = mkInput 2.5 (-0.5) 0 1 10.
Proof.
  split; [intros d; unfold vectorsToSABIT; f_equal|].
  repeat split; unfold vectorsToSABIT; cbn [vec_S vec_A vec_B vec_I vec_T];
    f_equal; lra.
Qed.

(** C10.  For every input the softmax denominator is at least 15, hence
    positive and not zero: every floored score is non-negative, so every
    exponential term is at least 1. *)
Theorem sumExpScores_never_zero (input : SABITInput) :
  Forall (fun sc => 0 <= score sc) (scores input) /\
  Forall (fun w => 1 <= w) (expScores input) /\
  length (expScores input) = 15%nat /\
  15 <= sumExpScores input /\
  0 < sumExpScores input /\
  sumExpScores input <> 0.
Proof.
  split.
  { unfold scores; rewrite Forall_map.
    apply Forall_forall; intros c _; cbn [score]; apply Rmax_l. }
  split; [apply expScores_at_least_1|].
  split; [rewrite expScores_length, scores_length; reflexivity|].
  pose proof (sumExpScores_at_least_15 input).
  repeat split; lra.
Qed.

(** * Further properties of the engine *)

Lemma allocations_length (input : SABITInput) :
  length (allocations input) = 15%nat.
Proof. rewrite allocations_by_ingredient, length_map; reflexivity. Qed.

Lemma allocations_total (input : SABITInput) :
  Rsum (map ml (allocations input)) = totalVolume input.
Proof.
  rewrite allocations_by_ingredient, map_map; cbn [ml].
  pose proof (sumExpScores_pos input) as Hpos.
  rewrite (Rsum_scaled (fun c => Softmax.weight input c / sumExpScores input)
                       (totalVolume input)).
  unfold Rdiv.
  rewrite (Rsum_scaled (Softmax.weight input) (/ sumExpScores input)).
  fold (Softmax.denominator input).
  rewrite <- sumExpScores_denominator.
  field; lra.
Qed.

(** Some element of a non-empty list is at least the average. *)
Lemma Rsum_some_at_least (l : list R) (c : R) :
  l <> [] -> INR (length l) * c <= Rsum l -> exists x, In x l /\ c <= x.
Proof.
  induction l as [|x l IH]; [congruence|]; intros _ H.
  destruct (Rle_dec c x) as [Hc|Hc]; [exists x; split; [now left|exact Hc]|].
  change (length (x :: l)) with (S (length l)) in H.
  rewrite S_INR in H; cbn [Rsum fold_right] in H; fold (Rsum l) in H.
  destruct l as [|y l].
  - cbn in H; lra.
  - destruct IH as (z & Hz & Hcz); [discriminate|lra|].
    exists z; split; [now right|exact Hcz].
Qed.

Lemma weight_pos (input : SABITInput) (c : Ingredient) :
  0 < Softmax.weight input c.
Proof. pose proof (weight_at_least_1 input c); lra. Qed.

(** One term of a sum of terms that are at least 1 leaves at least 1 to
    each of the others. *)
Lemma Rsum_member_bound (l : list R) (x : R) :
  Forall (fun w => 1 <= w) l -> In x l ->
  x + INR (length l) - 1 <= Rsum l.
Proof.
  induction 1 as [|w l Hw Hl IH]; intros Hin; [contradiction|].
  change (length (w :: l)) with (S (length l)); rewrite S_INR.
  cbn [Rsum fold_right]; fold (Rsum l).
  destruct Hin as [-> | Hin].
  - pose proof (Rsum_at_least l Hl); lra.
  - specialize (IH Hin); lra.
Qed.

Lemma weight_below_sum (input : SABITInput) (c : Ingredient) :
  In c INGREDIENTS -> Softmax.weight input c + 14 <= sumExpScores input.
Proof.
  intros Hc.
  unfold sumExpScores; rewrite reduce_plus.
  pose proof (Rsum_member_bound (expScores input) (Softmax.weight input c)
                                (expScores_at_least_1 input)) as H.
  rewrite expScores_length, scores_length in H.
  change (length INGREDIENTS) with 15%nat in H.
  rewrite INR_IZR_INZ in H; cbn [Z.of_nat Pos.of_succ_nat Pos.succ] in H.
  assert (Hin : In (Softmax.weight input c) (expScores input)).
  { rewrite expScores_weights; now apply in_map. }
  specialize (H Hin); lra.
Qed.

(** The share of an ingredient: strictly between 0 and 1. *)
Lemma share_bounds (input : SABITInput) (c : Ingredient) :
  In c INGREDIENTS ->
  0 < Softmax.weight input c / sumExpScores input < 1.
Proof.
  intros Hc.
  pose proof (weight_pos input c) as Hw.
  pose proof (weight_below_sum input c Hc) as Hs.
  pose proof (sumExpScores_pos input) as Hp.
  split.
  - now apply Rdiv_lt_0_compat.
  - apply (Rmult_lt_reg_r (sumExpScores input)); [exact Hp|].
    unfold Rdiv; rewrite Rmult_assoc, Rinv_l by lra. lra.
Qed.

Lemma allocation_of_In (input : SABITInput) (p : Pour) :
  In p (allocations input) ->
  exists c, In c INGREDIENTS /\ name p = ing_name c /\
            ml p = Softmax.weight input c / sumExpScores input
                   * totalVolume input.
Proof.
  rewrite allocations_by_ingredient; intros H.
  apply in_map_iff in H as (c & <- & Hc).
  now exists c.
Qed.

Lemma rawRecipe_head (input : SABITInput) :
  15 <= totalVolume input ->
  exists first rest,
    rawRecipe input = first :: rest /\
    totalVolume input / 15 <= ml first /\
    Forall (fun p => ml p <= ml first) rest /\
    result_recipe (calculateDynamicRecipe input)
    = mkItem (name first) (toFixed1 (ml first))
        :: map (fun r => mkItem (name r) (toFixed1 (ml r))) rest.
Proof.
  intros Hvol.
  destruct (Rsum_some_at_least (map ml (allocations input))
                               (totalVolume input / 15))
    as (x & Hx & Hle).
  - intros E; apply (f_equal (@length R)) in E.
    rewrite length_map, allocations_length in E; discriminate.
  - rewrite length_map, allocations_length, allocations_total.
    rewrite INR_IZR_INZ; cbn [Z.of_nat Pos.of_succ_nat Pos.succ]. lra.
  - apply in_map_iff in Hx as (p & <- & Hp).
    assert (Hin : In p (rawRecipe input)).
    { apply rawRecipe_In; split; [exact Hp|lra]. }
    pose proof (rawRecipe_sorted input) as Hs.
    unfold calculateDynamicRecipe; cbn [result_recipe].
    destruct (rawRecipe input) as [|first rest]; [contradiction|].
    apply StronglySorted_inv in Hs as [_ Hfirst].
    assert (Hall : Forall (fun q => ml q <= ml first) rest).
    { eapply Forall_impl; [|exact Hfirst]. intros q Hq; cbv beta in Hq; lra. }
    exists first, rest; repeat split; try assumption; try reflexivity.
    destruct Hin as [-> | Hin]; [exact Hle|].
    pose proof (proj1 (Forall_forall _ _) Hall p Hin); cbv beta in *; lra.
Qed.





Lemma filter_none {A : Type} (p : A -> bool) (l : list A) :
  Forall (fun x => p x = false) l -> filter p l = [].
Proof.
  induction 1 as [|x l Hx _ IH]; simpl; [reflexivity|].
  now rewrite Hx.
Qed.

(** X3.  When the total volume is below 1 (Texture below -59/90) every
    allocation is below the 1.0 threshold and the recipe returned is
    empty. *)
Theorem recipe_empty_below_1ml (input : SABITInput) :
  totalVolume input < 1 ->
  result_recipe (calculateDynamicRecipe input) = [] /\
  Forall (fun p => ml p < 1) (allocations input).
Proof.
  intros Hvol.
  assert (Hall : Forall (fun p => ml p < 1) (allocations input)).
  { apply Forall_forall; intros p Hp.
    apply allocation_of_In in Hp as (c & Hc & _ & ->).
    pose proof (share_bounds input c Hc) as [H0 H1]. nra. }
  split; [|exact Hall].
  unfold calculateDynamicRecipe, rawRecipe; cbn [result_recipe].
  rewrite filter_none; [reflexivity|].
  eapply Forall_impl; [|exact Hall].
  intros p Hp; cbv beta in Hp.
  destruct (at_least_1ml p) eqn:E; [|reflexivity].
  apply at_least_1ml_true in E; lra.
Qed.

Lemma recipe_empty_below_1ml_witness :
  totalVolume (mkInput 0 0 0 0 (-1)) < 1 /\
  result_recipe (calculateDynamicRecipe (mkInput 0 0 0 0 (-1))) = [] /\
  Forall (fun p => ml p < 1) (allocations (mkInput 0 0 0 0 (-1))).
Proof.
  assert (H : totalVolume (mkInput 0 0 0 0 (-1)) < 1).
  { unfold totalVolume; simpl; lra. }
  split; [exact H | exact (recipe_empty_below_1ml _ H)].
Defined.



Lemma distinct_NoDup (l : list string) : distinct l = true -> NoDup l.
Proof.
  induction l as [|x l IH]; cbn [distinct]; intros H; constructor.
  - apply andb_prop in H as [H _].
    intros Hin.
    assert (E : existsb (String.eqb x) l = true).
    { apply existsb_exists; exists x; split; [exact Hin|].
      apply String.eqb_refl. }
    rewrite E in H; discriminate.
  - apply andb_prop in H as [_ H]; now apply IH.
Qed.

Lemma catalog_names :
  map ing_name INGREDIENTS
  = [ "ジン (Tanqueray)"; "ウォッカ"; "ウイスキー (Jameson)"; "ホワイトラム";
      "カンパリ"; "チンザノロッソ"; "カルーア"; "コアントロー";
      "レモンジュース"; "ライムジュース"; "シンプルシロップ"; "グレナディン";
      "トニックウォーター"; "ジンジャーエール"; "ソーダ (強炭酸)" ]%string.
Proof. reflexivity. Qed.

Lemma catalog_names_distinct : NoDup (map ing_name INGREDIENTS).
Proof. rewrite catalog_names; apply distinct_NoDup; vm_compute; reflexivity. Qed.

(** Dropping entries keeps the remaining names distinct. *)
Lemma names_stay_distinct (keep : Pour -> bool) (pours : list Pour) :
  NoDup (map name pours) -> NoDup (map name (filter keep pours)).
Proof.
  intros Hnd; induction pours as [|q pours IH]; cbn [map filter] in *;
    [constructor|].
  apply NoDup_cons_iff in Hnd as [Hq Hrest].
  destruct (keep q); [|now apply IH].
  cbn [map]; constructor; [|now apply IH].
  intros Hin; apply Hq.
  apply in_map_iff in Hin as (y & Hy & Hin).
  apply filter_In in Hin as [Hin _].
  apply in_map_iff; now exists y.
Qed.

Lemma allocation_names (input : SABITInput) :
  map name (allocations input) = map ing_name INGREDIENTS.
Proof. rewrite allocations_by_ingredient, map_map; now apply map_ext. Qed.

Lemma recipe_names (input : SABITInput) :
  map item_name (result_recipe (calculateDynamicRecipe input))
  = map name (rawRecipe input).
Proof.
  unfold calculateDynamicRecipe; cbn [result_recipe].
  rewrite map_map; now apply map_ext.
Qed.

(** X5.  No ingredient is listed twice: the names of the recipe returned
    are pairwise distinct names of the catalog, so the list has at most 15
    entries. *)
Theorem recipe_names_distinct (input : SABITInput) :
  NoDup (map item_name (result_recipe (calculateDynamicRecipe input))) /\
  incl (map item_name (result_recipe (calculateDynamicRecipe input)))
       (map ing_name INGREDIENTS) /\
  (length (result_recipe (calculateDynamicRecipe input)) <= 15)%nat.
Proof.
  rewrite recipe_names.
  assert (P : Permutation (map name (rawRecipe input))
                          (map name (filter at_least_1ml
                                            (allocations input)))).
  { apply Permutation_map, rawRecipe_perm. }
  assert (N : NoDup (map name (rawRecipe input))).
  { eapply Permutation_NoDup; [symmetry; exact P|].
    apply names_stay_distinct.
    rewrite allocation_names; exact catalog_names_distinct. }
  assert (I : incl (map name (rawRecipe input)) (map ing_name INGREDIENTS)).
  { intros n Hn.
    apply in_map_iff in Hn as (p & <- & Hp).
    apply rawRecipe_In in Hp as [Hp _].
    rewrite <- (allocation_names input); now apply in_map. }
  split; [exact N|]; split; [exact I|].
  unfold calculateDynamicRecipe; cbn [result_recipe].
  rewrite length_map, <- (length_map name).
  pose proof (NoDup_incl_length N I) as H.
  rewrite (length_map ing_name) in H.
  change (length INGREDIENTS) with 15%nat in H; exact H.
Qed.





(** * The score page: [vectorsToSABIT] followed by the engine *)

Lemma catalog_components_in_range :
  Forall components_in_range INGREDIENTS.
Proof.
  unfold INGREDIENTS; repeat (apply Forall_cons || apply Forall_nil);
    intros []; unfold unit_interval; simpl; lra.
Qed.

Lemma vectorsToSABIT_scaled (lo hi : R) (v : VectorValues) :
  vec_within lo hi v ->
  lo / 100 <= s (vectorsToSABIT v) <= hi / 100 /\
  lo / 100 <= a (vectorsToSABIT v) <= hi / 100 /\
  lo / 100 <= b (vectorsToSABIT v) <= hi / 100 /\
  lo / 100 <= i (vectorsToSABIT v) <= hi / 100 /\
  lo / 100 <= t (vectorsToSABIT v) <= hi / 100.
Proof.
  intros H.
  pose proof (H AxisS); pose proof (H AxisA); pose proof (H AxisB);
    pose proof (H AxisI); pose proof (H AxisT).
  unfold vectorsToSABIT; cbn [s a b i t vec_get] in *.
  repeat split; lra.
Qed.

(** X7.  A vector on the display scale, every component in [[0,100]],
    reaches the engine inside its domain: the score page then shows a
    total volume in [[60,150]], equal to [60 + 0.9 * T], and a recipe that
    is not empty. *)
Theorem score_page_on_display_scale (vectors : VectorValues) :
  vec_within 0 100 vectors ->
  engine_domain (vectorsToSABIT vectors) /\
  totalVolume (vectorsToSABIT vectors) = 60 + 0.9 * vec_T vectors /\
  60 <= totalVolume (vectorsToSABIT vectors) <= 150 /\
  result_totalVolume (ScorePage.recipe vectors)
  = toFixed1 (60 + 0.9 * vec_T vectors) /\
  result_recipe (ScorePage.recipe vectors) <> [].
Proof.
  intros H.
  destruct (vectorsToSABIT_scaled 0 100 vectors H)
    as (Hs & Ha & Hb & Hi & Ht).
  assert (V : totalVolume (vectorsToSABIT vectors) = 60 + 0.9 * vec_T vectors).
  { unfold totalVolume, vectorsToSABIT; cbn [t]; lra. }
  split; [unfold engine_domain, unit_interval; repeat split; lra|].
  split; [exact V|].
  split; [unfold totalVolume; lra|].
  split.
  { unfold ScorePage.recipe, calculateDynamicRecipe; cbn [result_totalVolume].
    now rewrite V. }
  destruct (rawRecipe_head (vectorsToSABIT vectors))
    as (first & rest & _ & _ & _ & E).
  { unfold totalVolume; lra. }
  unfold ScorePage.recipe; rewrite E; discriminate.
Qed.

Lemma score_page_on_display_scale_witness :
  vec_within 0 100 (mkVectors 100 50 0 25 75) /\
  engine_domain (vectorsToSABIT (mkVectors 100 50 0 25 75)) /\
  totalVolume (vectorsToSABIT (mkVectors 100 50 0 25 75))
  = 60 + 0.9 * vec_T (mkVectors 100 50 0 25 75) /\
  60 <= totalVolume (vectorsToSABIT (mkVectors 100 50 0 25 75)) <= 150 /\
  result_totalVolume (ScorePage.recipe (mkVectors 100 50 0 25 75))
  = toFixed1 (60 + 0.9 * vec_T (mkVectors 100 50 0 25 75)) /\
  result_recipe (ScorePage.recipe (mkVectors 100 50 0 25 75)) <> [].
Proof.
  assert (H : vec_within 0 100 (mkVectors 100 50 0 25 75)).
  { intros []; simpl; lra. }
  split; [exact H | exact (score_page_on_display_scale _ H)].
Defined.

Lemma Rsum_at_most (l : list R) (m : R) :
  Forall (fun w => w <= m) l -> Rsum l <= INR (length l) * m.
Proof.
  induction 1 as [|w l Hw _ IH].
  - cbn; lra.
  - change (length (w :: l)) with (S (length l)).
    rewrite S_INR; unfold Rsum in *; cbn [fold_right]; lra.
Qed.

Lemma exp_le (x y : R) : x <= y -> exp x <= exp y.
Proof.
  intros [H | ->]; [left; now apply exp_increasing | apply Rle_refl].
Qed.

Lemma exp_six_tenths : exp 0.6 < 2.5.
Proof.
  assert (Hnz : Ropp 0.6 <> 0) by lra.
  pose proof (exp_ineq1 (Ropp 0.6) Hnz) as H.
  rewrite exp_Ropp in H.
  pose proof (exp_pos 0.6) as Hp.
  assert (E : exp 0.6 * / exp 0.6 = 1) by (apply Rinv_r; lra).
  nra.
Qed.

(** With every component of the input at most 0.01, no weight exceeds
    [exp 0.6]. *)
Lemma weight_small_input (input : SABITInput) (c : Ingredient) :
  In c INGREDIENTS ->
  0 <= s input <= 0.01 -> 0 <= a input <= 0.01 -> 0 <= b input <= 0.01 ->
  0 <= i input <= 0.01 -> 0 <= t input <= 0.01 ->
  Softmax.weight input c <= 2.5.
Proof.
  intros Hc Hs Ha Hb Hi Ht.
  pose proof (proj1 (Forall_forall _ _) catalog_components_in_range c Hc)
    as Hr.
  pose proof (Hr AxisS) as Rs; pose proof (Hr AxisA) as Ra;
    pose proof (Hr AxisB) as Rb; pose proof (Hr AxisI) as Ri;
    pose proof (Hr AxisT) as Rt.
  unfold unit_interval in *; cbn [component] in *.
  assert (Hdot : Softmax.dot input c <= 0.05).
  { unfold Softmax.dot; nra. }
  unfold Softmax.weight.
  eapply Rle_trans; [apply (exp_le _ 0.6) | left; exact exp_six_tenths].
  assert (Rmax 0 (Softmax.dot input c) <= 0.05).
  { apply Rmax_lub; lra. }
  lra.
Qed.

(** X8.  The page applies [vectorsToSABIT] to whatever vector it holds.
    For a vector whose components lie in [[0,1]] the engine therefore
    receives components of at most 0.01: the total volume stays within
    [[60, 60.9]] and all 15 catalog ingredients are listed. *)
Theorem score_page_on_unit_scale (vectors : VectorValues) :
  vec_within 0 1 vectors ->
  60 <= totalVolume (vectorsToSABIT vectors) <= 60.9 /\
  Forall (fun p => 1 <= ml p) (allocations (vectorsToSABIT vectors)) /\
  length (result_recipe (ScorePage.recipe vectors)) = 15%nat.
Proof.
  intros H.
  destruct (vectorsToSABIT_scaled 0 1 vectors H)
    as (Hs & Ha & Hb & Hi & Ht).
  set (x := vectorsToSABIT vectors) in *.
  assert (V : 60 <= totalVolume x <= 60.9) by (unfold totalVolume; lra).
  assert (S15 : sumExpScores x <= 37.5).
  { unfold sumExpScores; rewrite reduce_plus.
    pose proof (Rsum_at_most (expScores x) 2.5) as Hm.
    rewrite expScores_length, scores_length in Hm.
    change (length INGREDIENTS) with 15%nat in Hm.
    rewrite INR_IZR_INZ in Hm; cbn [Z.of_nat Pos.of_succ_nat Pos.succ] in Hm.
    assert (Hall : Forall (fun w => w <= 2.5) (expScores x)).
    { rewrite expScores_weights, Forall_map.
      apply Forall_forall; intros c Hc.
      apply weight_small_input; try assumption; lra. }
    specialize (Hm Hall); lra. }
  assert (A : Forall (fun p => 1 <= ml p) (allocations x)).
  { apply Forall_forall; intros p Hp.
    apply allocation_of_In in Hp as (c & Hc & _ & ->).
    pose proof (weight_at_least_1 x c) as Hw.
    pose proof (sumExpScores_pos x) as Hpos.
    assert (Hinv : 0 < / sumExpScores x) by now apply Rinv_0_lt_compat.
    assert (E : sumExpScores x * / sumExpScores x = 1)
      by (apply Rinv_r; lra).
    assert (Hwv : sumExpScores x <= Softmax.weight x c * totalVolume x)
      by nra.
    unfold Rdiv.
    pose proof (Rmult_le_compat_r (/ sumExpScores x) _ _
                                  (Rlt_le _ _ Hinv) Hwv) as Hq.
    rewrite E in Hq; lra. }
  split; [exact V|]; split; [exact A|].
  unfold ScorePage.recipe; fold x.
  unfold calculateDynamicRecipe, rawRecipe; cbn [result_recipe].
  rewrite length_map, filter_all.
  - transitivity (length (allocations x)); [|apply allocations_length].
    apply Permutation_length, (sort_perm ml).
  - eapply Forall_impl; [|exact A].
    intros p Hp; now apply at_least_1ml_true.
Qed.

Lemma score_page_on_unit_scale_witness :
  vec_within 0 1 (mkVectors 1 0.5 0 0.25 1) /\
  60 <= totalVolume (vectorsToSABIT (mkVectors 1 0.5 0 0.25 1)) <= 60.9 /\
  Forall (fun p => 1 <= ml p)
         (allocations (vectorsToSABIT (mkVectors 1 0.5 0 0.25 1))) /\
  length (result_recipe (ScorePage.recipe (mkVectors 1 0.5 0 0.25 1)))
  = 15%nat.
Proof.
  assert (H : vec_within 0 1 (mkVectors 1 0.5 0 0.25 1)).
  { intros []; simpl; lra. }
  split; [exact H | exact (score_page_on_unit_scale _ H)].
Defined.

(** * The Firebase module *)

(** X9.  Where [window] is undefined, [getFirebaseApp] throws and changes
    nothing, and [getFirebaseDatabase] throws the same error unless a
    database is already cached. *)
Theorem firebase_throws_off_client (st : Firebase.State) :
  Firebase.window_defined st = false ->
  Firebase.getFirebaseApp st
  = (st, Firebase.Thrown
           "Firebase can only be initialized on the client side") /\
  (Firebase.database st = None ->
   Firebase.getFirebaseDatabase st
   = (st, Firebase.Thrown
            "Firebase can only be initialized on the client side")).
Proof.
  intros Hw.
  assert (E : Firebase.getFirebaseApp st
              = (st, Firebase.Thrown
                       "Firebase can only be initialized on the client side")).
  { unfold Firebase.getFirebaseApp; now rewrite Hw. }
  split; [exact E|].
  intros Hd; unfold Firebase.getFirebaseDatabase; now rewrite Hd, E.
Qed.

Lemma firebase_throws_off_client_witness :
  Firebase.getFirebaseApp (Firebase.mkState false [] None None)
  = (Firebase.mkState false [] None None,
     Firebase.Thrown "Firebase can only be initialized on the client side").
Proof.
  exact (proj1 (firebase_throws_off_client
                  (Firebase.mkState false [] None None) eq_refl)).
Defined.





(** * The shared record: writer and reader *)

Lemma calculateDynamicRecipe_zeroInput :
  calculateDynamicRecipe zeroInput
  = {| result_totalVolume := "60.0";
       result_recipe := map (fun c => mkItem (ing_name c) "4.0") INGREDIENTS |}.
Proof.
  assert (V : totalVolume zeroInput = 60).
  { unfold totalVolume; simpl; lra. }
  unfold calculateDynamicRecipe.
  rewrite V, toFixed1_60, rawRecipe_zeroInput, map_map.
  f_equal; apply map_ext; intros c; cbn [name ml].
  now rewrite toFixed1_4.
Qed.

Lemma vectorsToSABIT_default : vectorsToSABIT DEFAULT_VALUES = zeroInput.
Proof.
  unfold vectorsToSABIT, DEFAULT_VALUES, zeroInput;
    cbn [vec_S vec_A vec_B vec_I vec_T]; f_equal; lra.
Qed.

(** X12.  What the writer stores is what the reader shows: after
    [setVectors] with the database there and a clock that is not 0, the
    reader's callback on the stored record holds exactly the written vector
    and the time of the write, whatever was stored or shown before; the
    writer's own vector is the written one too. *)
Theorem write_then_read (now : R) (newVectors local : VectorValues)
        (stored : option Sync.SabitRecord) (reader : Sync.ReadState) :
  now <> 0 ->
  let after := Sync.setVectors true now newVectors (local, stored) in
  fst after = newVectors /\
  Sync.onSabitValue true (snd after) reader
  = Sync.mkReadState newVectors (Some now) /\
  ScorePage.recipe (Sync.vectors (Sync.onSabitValue true (snd after) reader))
  = calculateDynamicRecipe (vectorsToSABIT newVectors).
Proof.
  intros Hnow; cbv zeta.
  assert (E : Sync.onSabitValue true
                (snd (Sync.setVectors true now newVectors (local, stored)))
                reader
              = Sync.mkReadState newVectors (Some now)).
  { unfold Sync.setVectors, Sync.onSabitValue, Sync.written, Sync.truthy;
      cbn [snd Sync.rec_S Sync.rec_A Sync.rec_B Sync.rec_I Sync.rec_T
           Sync.rec_timestamp Sync.nullish].
    destruct (Req_dec_T now 0) as [H0|_]; [contradiction|].
    now destruct newVectors. }
  split; [reflexivity|]; split; [exact E|].
  now rewrite E.
Qed.

Lemma write_then_read_witness :
  Sync.onSabitValue true
    (snd (Sync.setVectors true 1700000000000 (mkVectors 0.5 0 1 0.25 0.75)
                          (DEFAULT_VALUES, None)))
    Sync.initialReadState
  = Sync.mkReadState (mkVectors 0.5 0 1 0.25 0.75) (Some 1700000000000).
Proof.
  assert (H : 1700000000000 <> 0) by lra.
  exact (proj1 (proj2 (write_then_read 1700000000000
                         (mkVectors 0.5 0 1 0.25 0.75) DEFAULT_VALUES None
                         Sync.initialReadState H))).
Defined.

(** X13.  A record without any of the five keys reads as the all-zero
    vector, with the time shown left as it was when the record has no
    timestamp either; the score page then shows "60.0" and all 15
    ingredients at "4.0". *)
Theorem read_record_without_keys (ts : option R) (reader : Sync.ReadState) :
  let shown :=
    Sync.onSabitValue true (Some (Sync.mkRecord None None None None None ts))
                      reader in
  Sync.vectors shown = DEFAULT_VALUES /\
  (ts = None -> Sync.lastUpdated shown = Sync.lastUpdated reader) /\
  ScorePage.recipe (Sync.vectors shown)
  = {| result_totalVolume := "60.0";
       result_recipe := map (fun c => mkItem (ing_name c) "4.0") INGREDIENTS |}.
Proof.
  cbv zeta; cbn [Sync.onSabitValue Sync.vectors Sync.nullish
                 Sync.rec_S Sync.rec_A Sync.rec_B Sync.rec_I Sync.rec_T
                 Sync.rec_timestamp Sync.lastUpdated].
  split; [reflexivity|]; split.
  - intros ->; reflexivity.
  - fold DEFAULT_VALUES; unfold ScorePage.recipe.
    rewrite vectorsToSABIT_default; apply calculateDynamicRecipe_zeroInput.
Qed.

(** X14.  The reader's callback is idempotent, and it never clears the
    time shown: delivering the same snapshot twice is delivering it once,
    and a time once set stays set. *)
Theorem reader_callback_idempotent (mounted : bool)
        (data : option Sync.SabitRecord) (reader : Sync.ReadState) :
  Sync.onSabitValue mounted data (Sync.onSabitValue mounted data reader)
  = Sync.onSabitValue mounted data reader /\
  (Sync.lastUpdated reader <> None ->
   Sync.lastUpdated (Sync.onSabitValue mounted data reader) <> None).
Proof.
  unfold Sync.onSabitValue.
  destruct data as [d|]; [|split; [reflexivity|tauto]].
  destruct mounted; [|split; [reflexivity|tauto]].
  cbn [Sync.vectors Sync.lastUpdated].
  destruct (Sync.truthy (Sync.rec_timestamp d)) eqn:E.
  - split; [reflexivity|].
    intros _; unfold Sync.truthy in E.
    destruct (Sync.rec_timestamp d); [discriminate|discriminate].
  - split; [reflexivity|tauto].
Qed.

(** * The shares of the stacked bar *)

Lemma sliders_total (values : VectorValues) :
  SabitSliders.total values
  = vec_S values + vec_A values + vec_B values + vec_I values + vec_T values.
Proof.
  unfold SabitSliders.total; rewrite reduce_plus.
  unfold vec_values, Rsum; cbn [fold_right]; lra.
Qed.


(** X16.  When no value is negative every share lies in [[0,100]]. *)
Theorem slider_shares_in_range (values : VectorValues) :
  (forall k, 0 <= vec_get k values) ->
  Forall (fun share => 0 <= share <= 100) (SabitSliders.percentages values).
Proof.
  intros H.
  pose proof (H AxisS) as Hs; pose proof (H AxisA) as Ha;
    pose proof (H AxisB) as Hb; pose proof (H AxisI) as Hi;
    pose proof (H AxisT) as Ht; cbn [vec_get] in *.
  unfold SabitSliders.percentages.
  destruct (Req_dec_T (SabitSliders.total values) 0) as [E|N].
  - unfold SabitSliders.DIMENSIONS; cbn [map].
    repeat (apply Forall_cons || apply Forall_nil); lra.
  - rewrite sliders_total in *.
    set (tot := vec_S values + vec_A values + vec_B values + vec_I values
                + vec_T values) in *.
    assert (Hpos : 0 < tot) by (unfold tot in *; lra).
    assert (Hshare : forall x, 0 <= x <= tot -> 0 <= x / tot * 100 <= 100).
    { intros x [Hx0 Hx1].
      assert (Hinv : 0 < / tot) by now apply Rinv_0_lt_compat.
      assert (E1 : tot * / tot = 1) by (apply Rinv_r; lra).
      unfold Rdiv; split; [nra|].
      pose proof (Rmult_le_compat_r (/ tot) _ _ (Rlt_le _ _ Hinv) Hx1).
      lra. }
    unfold SabitSliders.DIMENSIONS; cbn [map vec_get].
    repeat (apply Forall_cons || apply Forall_nil);
      apply Hshare; unfold tot; lra.
Qed.

Lemma slider_shares_in_range_witness :
  Forall (fun share => 0 <= share <= 100)
         (SabitSliders.percentages (mkVectors 0.5 0 1 0.25 0.75)).
Proof.
  apply (slider_shares_in_range (mkVectors 0.5 0 1 0.25 0.75)).
  intros []; simpl; lra.
Defined.

(** * [Math.round] *)

Lemma js_round_IZR (n : Z) : js_round (IZR n) = n.
Proof. unfold js_round; apply Zfloor_eq; lra. Qed.

Lemma js_round_mono (x y : R) : x <= y -> (js_round x <= js_round y)%Z.
Proof. intros H; unfold js_round; apply Zfloor_le; lra. Qed.

Lemma js_round_near (x : R) : x - / 2 < IZR (js_round x) <= x + / 2.
Proof.
  unfold js_round; pose proof (Zfloor_bound (x + / 2)); lra.
Qed.


(** * The radar *)

Lemma maxRadius_pos (width height : R) :
  0 < width -> 0 < height -> 0 < InteractiveRadar.maxRadius width height.
Proof.
  intros Hw Hh; unfold InteractiveRadar.maxRadius.
  assert (0 < Rmin width height) by (apply Rmin_glb_lt; assumption).
  lra.
Qed.

Lemma clamp_unit_bounds (x : R) : 0 <= Rmax 0 (Rmin 1 x) <= 1.
Proof.
  split; [apply Rmax_l|].
  apply Rmax_lub; [lra | apply Rmin_l].
Qed.

Lemma radar_value_on_grid_helper (width height : R)
      (rect : InteractiveRadar.Rect) (clientX clientY : R) (dimIndex : Z) :
  exists n : Z,
    (0 <= n <= 100)%Z /\
    InteractiveRadar.calculateValueFromPosition
      width height (Some rect) clientX clientY dimIndex
    = Some (IZR n / 100).
Proof.
  unfold InteractiveRadar.calculateValueFromPosition; cbv zeta.
  match goal with
  | |- context [js_round (?v * 100)] => set (value := v)
  end.
  exists (js_round (value * 100)); split; [|reflexivity].
  pose proof (clamp_unit_bounds
                (((clientX - InteractiveRadar.left rect
                   - InteractiveRadar.centerX width)
                  * cos (InteractiveRadar.getAngle dimIndex)
                  + (clientY - InteractiveRadar.top rect
                     - InteractiveRadar.centerY height)
                    * sin (InteractiveRadar.getAngle dimIndex))
                 / InteractiveRadar.maxRadius width height)) as [H0 H1].
  fold value in H0, H1.
  assert (L : 0 <= value * 100) by lra.
  assert (U : value * 100 <= 100) by lra.
  apply js_round_mono in L, U.
  rewrite js_round_IZR in L, U; lia.
Qed.

(** X17.  On a mounted chart of positive size, whatever the pointer
    position and the axis, the value computed is one of 0, 0.01, ..., 1. *)
Theorem radar_value_on_the_grid (width height : R)
        (rect : InteractiveRadar.Rect) (clientX clientY : R) (dimIndex : Z) :
  0 < width -> 0 < height ->
  exists n : Z,
    (0 <= n <= 100)%Z /\
    InteractiveRadar.calculateValueFromPosition
      width height (Some rect) clientX clientY dimIndex
    = Some (IZR n / 100).
Proof. intros _ _; apply radar_value_on_grid_helper. Qed.

Lemma radar_value_on_the_grid_witness :
  exists n : Z,
    (0 <= n <= 100)%Z /\
    InteractiveRadar.calculateValueFromPosition
      300 300 (Some (InteractiveRadar.mkRect 10 20)) 200 120 3
    = Some (IZR n / 100).
Proof.
  apply (radar_value_on_the_grid 300 300 (InteractiveRadar.mkRect 10 20)
                                 200 120 3); lra.
Defined.

(** The pointer placed where a value is drawn projects onto the axis at
    that value times the radius. *)
Lemma projection_of_drawn_point (width height : R)
      (rect : InteractiveRadar.Rect) (index : Z) (value : R) :
  let pos := InteractiveRadar.getPointPosition width height index value in
  let angle := InteractiveRadar.getAngle index in
  (InteractiveRadar.left rect + InteractiveRadar.px pos
   - InteractiveRadar.left rect - InteractiveRadar.centerX width) * cos angle
  + (InteractiveRadar.top rect + InteractiveRadar.py pos
     - InteractiveRadar.top rect - InteractiveRadar.centerY height) * sin angle
  = value * InteractiveRadar.maxRadius width height.
Proof.
  cbv zeta; unfold InteractiveRadar.getPointPosition;
    cbv zeta; cbn [InteractiveRadar.px InteractiveRadar.py].
  set (angle := InteractiveRadar.getAngle index).
  pose proof (sin2_cos2 angle) as H; unfold Rsqr in H.
  transitivity (value * InteractiveRadar.maxRadius width height
                * (sin angle * sin angle + cos angle * cos angle));
    [ring | rewrite H; ring].
Qed.

(** X18.  Round trip with the drawing: on a chart of positive size, the
    pointer placed exactly where [getPointPosition] draws a value of the
    grid 0, 0.01, ..., 1 on an axis gives that value back for that axis. *)
Theorem radar_reads_back_what_it_draws (width height : R)
        (rect : InteractiveRadar.Rect) (index n : Z) :
  0 < width -> 0 < height -> (0 <= n <= 100)%Z ->
  let pos :=
    InteractiveRadar.getPointPosition width height index (IZR n / 100) in
  InteractiveRadar.calculateValueFromPosition
    width height (Some rect)
    (InteractiveRadar.left rect + InteractiveRadar.px pos)
    (InteractiveRadar.top rect + InteractiveRadar.py pos) index
  = Some (IZR n / 100).
Proof.
  intros Hw Hh [Hn0 Hn1]; cbv zeta.
  unfold InteractiveRadar.calculateValueFromPosition; cbv zeta.
  pose proof (projection_of_drawn_point width height rect index (IZR n / 100))
    as P; cbv zeta in P; rewrite P.
  pose proof (maxRadius_pos width height Hw Hh) as Hr.
  apply IZR_le in Hn0, Hn1.
  replace (IZR n / 100 * InteractiveRadar.maxRadius width height
           / InteractiveRadar.maxRadius width height)
    with (IZR n / 100) by (field; lra).
  rewrite Rmin_right by lra.
  rewrite Rmax_right by lra.
  replace (IZR n / 100 * 100) with (IZR n) by lra.
  now rewrite js_round_IZR.
Qed.

Lemma radar_reads_back_what_it_draws_witness :
  InteractiveRadar.calculateValueFromPosition
    300 200 (Some (InteractiveRadar.mkRect 10 20))
    (InteractiveRadar.left (InteractiveRadar.mkRect 10 20)
     + InteractiveRadar.px
         (InteractiveRadar.getPointPosition 300 200 2 (IZR 37 / 100)))
    (InteractiveRadar.top (InteractiveRadar.mkRect 10 20)
     + InteractiveRadar.py
         (InteractiveRadar.getPointPosition 300 200 2 (IZR 37 / 100)))
    2
  = Some (IZR 37 / 100).
Proof.
  apply (radar_reads_back_what_it_draws
           300 200 (InteractiveRadar.mkRect 10 20) 2 37); try lra; lia.
Defined.

(** X19.  A pointer that projects onto the axis at or beyond its end gives
    1, and one that projects at or behind the centre gives 0. *)
Theorem radar_value_saturates (width height : R)
        (rect : InteractiveRadar.Rect) (clientX clientY : R) (dimIndex : Z) :
  0 < width -> 0 < height ->
  let projection :=
    (clientX - InteractiveRadar.left rect - InteractiveRadar.centerX width)
    * cos (InteractiveRadar.getAngle dimIndex)
    + (clientY - InteractiveRadar.top rect - InteractiveRadar.centerY height)
      * sin (InteractiveRadar.getAngle dimIndex) in
  (InteractiveRadar.maxRadius width height <= projection ->
   InteractiveRadar.calculateValueFromPosition
     width height (Some rect) clientX clientY dimIndex = Some 1) /\
  (projection <= 0 ->
   InteractiveRadar.calculateValueFromPosition
     width height (Some rect) clientX clientY dimIndex = Some 0).
Proof.
  intros Hw Hh; cbv zeta.
  pose proof (maxRadius_pos width height Hw Hh) as Hr.
  assert (Hinv : 0 < / InteractiveRadar.maxRadius width height)
    by now apply Rinv_0_lt_compat.
  assert (E1 : InteractiveRadar.maxRadius width height
               * / InteractiveRadar.maxRadius width height = 1)
    by (apply Rinv_r; lra).
  unfold InteractiveRadar.calculateValueFromPosition; cbv zeta.
  set (projection :=
         (clientX - InteractiveRadar.left rect
          - InteractiveRadar.centerX width)
         * cos (InteractiveRadar.getAngle dimIndex)
         + (clientY - InteractiveRadar.top rect
            - InteractiveRadar.centerY height)
           * sin (InteractiveRadar.getAngle dimIndex)).
  split; intros H.
  - assert (Hq : 1 <= projection / InteractiveRadar.maxRadius width height).
    { unfold Rdiv; rewrite <- E1.
      apply Rmult_le_compat_r; lra. }
    rewrite Rmin_left by exact Hq.
    rewrite Rmax_right by lra.
    replace (1 * 100) with (IZR 100) by lra.
    rewrite js_round_IZR; f_equal; lra.
  - assert (Hq : projection / InteractiveRadar.maxRadius width height <= 0).
    { unfold Rdiv.
      replace 0 with (0 * / InteractiveRadar.maxRadius width height) by ring.
      apply Rmult_le_compat_r; lra. }
    rewrite Rmin_right by lra.
    rewrite Rmax_left by exact Hq.
    replace (0 * 100) with (IZR 0) by lra.
    rewrite js_round_IZR; f_equal; lra.
Qed.

Lemma radar_value_saturates_witness :
  InteractiveRadar.calculateValueFromPosition
    300 300 (Some (InteractiveRadar.mkRect 10 20)) 160 170 4
  = Some 0.
Proof.
  apply (proj2 (radar_value_saturates
                  300 300 (InteractiveRadar.mkRect 10 20) 160 170 4
                  ltac:(lra) ltac:(lra))).
  unfold InteractiveRadar.centerX, InteractiveRadar.centerY;
    cbn [InteractiveRadar.left InteractiveRadar.top].
  replace (160 - 10 - 300 / 2) with 0 by lra.
  replace (170 - 20 - 300 / 2) with 0 by lra.
  lra.
Defined.

Lemma radar_key_index (key : Axis) :
  (InteractiveRadar.findIndex (fun d => InteractiveRadar.axis_eqb d key)
                              InteractiveRadar.DIMENSIONS
   =? -1)%Z = false.
Proof. destruct key; reflexivity. Qed.

Lemma vec_get_set_other (key k : Axis) (x : R) (v : VectorValues) :
  k <> key -> vec_get k (vec_set key x v) = vec_get k v.
Proof. destruct key, k; intros H; try reflexivity; contradiction. Qed.

Lemma vec_get_set_same (key : Axis) (x : R) (v : VectorValues) :
  vec_get key (vec_set key x v) = x.
Proof. destruct key; reflexivity. Qed.

(** X20.  On a chart of positive size, a pointer move calls [onChange]
    exactly when a handle is being dragged and the chart is mounted; the
    vector handed over differs from the current one in the dragged key
    only, whose new value is one of 0, 0.01, ..., 1. *)
Theorem pointer_move_changes_only_the_dragged_key (width height : R)
        (svg : option InteractiveRadar.Rect) (dragging : option Axis)
        (vectors : VectorValues) (clientX clientY : R) :
  0 < width -> 0 < height ->
  match InteractiveRadar.handlePointerMove
          width height svg dragging vectors clientX clientY with
  | None => dragging = None \/ svg = None
  | Some changed =>
      exists key n,
        dragging = Some key /\ svg <> None /\ (0 <= n <= 100)%Z /\
        vec_get key changed = IZR n / 100 /\
        forall k, k <> key -> vec_get k changed = vec_get k vectors
  end.
Proof.
  intros Hw Hh; unfold InteractiveRadar.handlePointerMove.
  destruct dragging as [key|]; [|now left].
  cbv zeta; rewrite radar_key_index.
  destruct svg as [rect|]; [|now right].
  destruct (radar_value_on_grid_helper width height rect clientX clientY
              (InteractiveRadar.findIndex
                 (fun d => InteractiveRadar.axis_eqb d key)
                 InteractiveRadar.DIMENSIONS))
    as (n & Hn & ->).
  exists key, n; repeat split; try tauto; try lia; try discriminate.
  - apply vec_get_set_same.
  - intros k Hk; now apply vec_get_set_other.
Qed.

Lemma pointer_move_changes_only_the_dragged_key_witness :
  match InteractiveRadar.handlePointerMove
          300 300 (Some (InteractiveRadar.mkRect 10 20)) (Some AxisB)
          (mkVectors 0.5 0 1 0.25 0.75) 200 120 with
  | None => Some AxisB = None \/ Some (InteractiveRadar.mkRect 10 20) = None
  | Some changed =>
      exists key n,
        Some AxisB = Some key /\
        Some (InteractiveRadar.mkRect 10 20) <> None /\ (0 <= n <= 100)%Z /\
        vec_get key changed = IZR n / 100 /\
        forall k, k <> key ->
                  vec_get k changed
                  = vec_get k (mkVectors 0.5 0 1 0.25 0.75)
  end.
Proof.
  apply (pointer_move_changes_only_the_dragged_key
           300 300 (Some (InteractiveRadar.mkRect 10 20)) (Some AxisB)
           (mkVectors 0.5 0 1 0.25 0.75) 200 120); lra.
Defined.

(** * The small recipe of [RecipeDisplay] *)

Section RecipeDisplayFacts.
Variable vectors : VectorValues.

#[local] Abbreviation pushed :=
  (RecipeDisplay.recipe_step vectors []).

Lemma recipe_step_appends (recipe : list RecipeDisplay.Item)
      (ingredient : RecipeDisplay.Ingredient) :
  RecipeDisplay.recipe_step vectors recipe ingredient
  = recipe ++ pushed ingredient.
Proof.
  unfold RecipeDisplay.recipe_step.
  destruct (RecipeDisplay.amountOf vectors ingredient) as [amt|];
    [|now rewrite app_nil_r].
  destruct (Rgt_dec amt 0.1); [reflexivity | now rewrite app_nil_r].
Qed.

Lemma fold_recipe_step (l : list RecipeDisplay.Ingredient)
      (recipe : list RecipeDisplay.Item) :
  fold_left (RecipeDisplay.recipe_step vectors) l recipe
  = recipe ++ flat_map pushed l.
Proof.
  revert recipe; induction l as [|ing l IH]; intros recipe; cbn [fold_left].
  - cbn; now rewrite app_nil_r.
  - rewrite IH, recipe_step_appends; cbn [flat_map].
    now rewrite <- app_assoc.
Qed.

Lemma calculateRecipe_flat_map :
  RecipeDisplay.calculateRecipe vectors
  = flat_map pushed RecipeDisplay.INGREDIENTS.
Proof. unfold RecipeDisplay.calculateRecipe; now rewrite fold_recipe_step. Qed.

(** What an entry of the recipe is made of. *)
Lemma pushed_item (ingredient : RecipeDisplay.Ingredient)
      (item : RecipeDisplay.Item) :
  In item (pushed ingredient) ->
  exists amt,
    RecipeDisplay.amountOf vectors ingredient = Some amt /\ 0.1 < amt /\
    item = RecipeDisplay.mkItem
             (RecipeDisplay.name ingredient)
             (RecipeDisplay.shortName ingredient)
             (IZR (js_round (amt * 10)) / 10)
             (RecipeDisplay.unit ingredient)
             (RecipeDisplay.category ingredient).
Proof.
  unfold RecipeDisplay.recipe_step.
  destruct (RecipeDisplay.amountOf vectors ingredient) as [amt|];
    [|contradiction].
  destruct (Rgt_dec amt 0.1) as [H|H]; [|contradiction].
  cbn [app]; intros [<- | []].
  exists amt; repeat split; lra.
Qed.

Lemma recipe_item (item : RecipeDisplay.Item) :
  In item (RecipeDisplay.calculateRecipe vectors) ->
  exists ingredient amt,
    In ingredient RecipeDisplay.INGREDIENTS /\
    RecipeDisplay.amountOf vectors ingredient = Some amt /\ 0.1 < amt /\
    item = RecipeDisplay.mkItem
             (RecipeDisplay.name ingredient)
             (RecipeDisplay.shortName ingredient)
             (IZR (js_round (amt * 10)) / 10)
             (RecipeDisplay.unit ingredient)
             (RecipeDisplay.category ingredient).
Proof.
  rewrite calculateRecipe_flat_map; intros H.
  apply in_flat_map in H as (ingredient & Hin & Hitem).
  apply pushed_item in Hitem as (amt & Ha & Hgt & ->).
  now exists ingredient, amt.
Qed.



Lemma influence_untouched (l : list (Axis * R)) (st : R * bool) :
  (forall k, vec_get k vectors <= 0) ->
  fold_left (RecipeDisplay.influence_step vectors) l st = st.
Proof.
  intros Hall; revert st; induction l as [|e l IH]; intros st;
    cbn [fold_left]; [reflexivity|].
  rewrite IH; unfold RecipeDisplay.influence_step, is_positive.
  destruct (Rgt_dec (vec_get (fst e) vectors) 0) as [H|H]; [|reflexivity].
  specialize (Hall (fst e)); lra.
Qed.
End RecipeDisplayFacts.

Lemma small_catalog_influences :
  Forall (fun ing => RecipeDisplay.vectorInfluence ing <> [])
         RecipeDisplay.INGREDIENTS.
Proof.
  unfold RecipeDisplay.INGREDIENTS;
    repeat (apply Forall_cons || apply Forall_nil); discriminate.
Qed.

Lemma flat_map_nil {A B : Type} (f : A -> list B) (l : list A) :
  (forall x, In x l -> f x = []) -> flat_map f l = [].
Proof.
  induction l as [|x l IH]; intros H; cbn [flat_map]; [reflexivity|].
  rewrite (H x) by now left.
  apply IH; intros y Hy; apply H; now right.
Qed.


(** X21.  With no positive value among the five, every ingredient is
    skipped: the small recipe is empty and the base total shown is 0. *)
Theorem small_recipe_empty_without_positive_value (vectors : VectorValues) :
  (forall k, vec_get k vectors <= 0) ->
  RecipeDisplay.calculateRecipe vectors = [] /\
  RecipeDisplay.totalBase vectors = 0.
Proof.
  intros Hall.
  assert (E : RecipeDisplay.calculateRecipe vectors = []).
  { rewrite calculateRecipe_flat_map; apply flat_map_nil.
    intros ing Hin.
    pose proof (proj1 (Forall_forall _ _) small_catalog_influences ing Hin)
      as Hne.
    unfold RecipeDisplay.recipe_step, RecipeDisplay.amountOf,
      RecipeDisplay.influenceOf.
    rewrite (influence_untouched vectors _ _ Hall).
    destruct (RecipeDisplay.vectorInfluence ing) eqn:Hl;
      [congruence|reflexivity]. }
  split; [exact E|].
  unfold RecipeDisplay.totalBase; rewrite E; reflexivity.
Qed.

Lemma small_recipe_empty_without_positive_value_witness :
  RecipeDisplay.calculateRecipe DEFAULT_VALUES = [] /\
  RecipeDisplay.totalBase DEFAULT_VALUES = 0.
Proof.
  apply (small_recipe_empty_without_positive_value DEFAULT_VALUES).
  intros []; simpl; lra.
Defined.


Lemma small_catalog_base_amounts :
  Forall (fun ing => exists m : Z,
              (0 <= m)%Z /\ RecipeDisplay.baseAmount ing * 10 = IZR m)
         RecipeDisplay.INGREDIENTS.
Proof.
  unfold RecipeDisplay.INGREDIENTS;
    repeat (apply Forall_cons || apply Forall_nil);
    cbn [RecipeDisplay.baseAmount].
  - exists 300%Z; split; [lia|lra].
  - exists 150%Z; split; [lia|lra].
  - exists 150%Z; split; [lia|lra].
  - exists 200%Z; split; [lia|lra].
  - exists 20%Z; split; [lia|lra].
  - exists 300%Z; split; [lia|lra].
Qed.

(** X23.  A modifier or an accent is never listed above its base amount:
    every entry that is not a base spirit carries the name of a catalog
    ingredient and an amount no larger than that ingredient's
    [baseAmount]. *)
Theorem small_recipe_modifiers_capped (vectors : VectorValues) :
  Forall (fun item =>
            RecipeDisplay.is_base (RecipeDisplay.item_category item) = true \/
            exists ing,
              In ing RecipeDisplay.INGREDIENTS /\
              RecipeDisplay.item_name item = RecipeDisplay.name ing /\
              RecipeDisplay.amount item <= RecipeDisplay.baseAmount ing)
         (RecipeDisplay.calculateRecipe vectors).
Proof.
  apply Forall_forall; intros item Hin.
  apply recipe_item in Hin as (ing & amt & Hing & Hamt & Hgt & ->).
  cbn [RecipeDisplay.item_category RecipeDisplay.item_name
       RecipeDisplay.amount].
  destruct (RecipeDisplay.is_base (RecipeDisplay.category ing)) eqn:Hb;
    [now left|right].
  exists ing; split; [exact Hing|]; split; [reflexivity|].
  destruct (proj1 (Forall_forall _ _) small_catalog_base_amounts ing Hing)
    as (m & Hm0 & Hm).
  unfold RecipeDisplay.amountOf in Hamt.
  destruct (RecipeDisplay.influenceOf vectors ing) as [influence active].
  destruct (negb active
            && (0 <? length (RecipeDisplay.vectorInfluence ing))%nat)%bool;
    [discriminate|].
  rewrite Hb in Hamt; injection Hamt as <-.
  apply IZR_le in Hm0.
  assert (Hcap : RecipeDisplay.baseAmount ing * Rmin (influence / 0.8) 1 * 10
                 <= IZR m).
  { pose proof (Rmin_r (influence / 0.8) 1). nra. }
  apply js_round_mono in Hcap; rewrite js_round_IZR in Hcap.
  apply IZR_le in Hcap; lra.
Qed.

Section BaseSpirits.
Variable vectors : VectorValues.

#[local] Abbreviation pushed' :=
  (RecipeDisplay.recipe_step vectors []).
#[local] Abbreviation is_base_item :=
  (fun item => RecipeDisplay.is_base (RecipeDisplay.item_category item)).

Lemma amountOf_base (ing : RecipeDisplay.Ingredient) :
  RecipeDisplay.is_base (RecipeDisplay.category ing) = true ->
  RecipeDisplay.amountOf vectors ing = None \/
  RecipeDisplay.amountOf vectors ing
  = Some (if (RecipeDisplay.shortName ing =? "Gin")%string
          then RecipeDisplay.maxBaseTotal vectors
               * RecipeDisplay.ginRatio vectors
          else if (RecipeDisplay.shortName ing =? "Bourbon")%string
               then RecipeDisplay.maxBaseTotal vectors
                    * RecipeDisplay.bourbonRatio vectors
               else 0).
Proof.
  intros Hb; unfold RecipeDisplay.amountOf.
  destruct (RecipeDisplay.influenceOf vectors ing) as [influence active].
  destruct (negb active
            && (0 <? length (RecipeDisplay.vectorInfluence ing))%nat)%bool;
    [now left|right].
  now rewrite Hb.
Qed.


Lemma bourbonRatio_in_unit :
  0 <= vec_B vectors -> 0 <= vec_T vectors ->
  0 <= RecipeDisplay.bourbonRatio vectors <= 1.
Proof.
  intros HB HT; unfold RecipeDisplay.bourbonRatio.
  destruct (is_positive (vec_B vectors) || is_positive (vec_T vectors))%bool;
    [|lra].
  set (den := vec_B vectors + vec_T vectors + 0.001).
  assert (Hden : 0 < den) by (unfold den; lra).
  assert (Hinv : 0 < / den) by now apply Rinv_0_lt_compat.
  assert (E : den * / den = 1) by (apply Rinv_r; lra).
  assert (Hle : vec_B vectors <= den) by (unfold den; lra).
  pose proof (Rmult_le_compat_r (/ den) _ _ (Rlt_le _ _ Hinv) Hle).
  unfold Rdiv; split; [nra|lra].
Qed.

Lemma pushed_sum_bound (ing : RecipeDisplay.Ingredient) (raw : R) :
  RecipeDisplay.amountOf vectors ing = None \/
  RecipeDisplay.amountOf vectors ing = Some raw ->
  0 <= raw ->
  0 <= Rsum (map RecipeDisplay.amount (pushed' ing)) <= raw + 0.05.
Proof.
  intros H Hraw; unfold RecipeDisplay.recipe_step.
  destruct H as [-> | ->]; [cbn; lra|].
  destruct (Rgt_dec raw 0.1) as [Hgt|_]; [|cbn; lra].
  cbn [app map RecipeDisplay.amount]; unfold Rsum; cbn [fold_right].
  pose proof (js_round_near (raw * 10)) as [_ Hup].
  assert (H1 : IZR 1 <= raw * 10) by lra.
  apply js_round_mono in H1; rewrite js_round_IZR in H1.
  apply IZR_le in H1; lra.
Qed.

Lemma filter_pushed (ing : RecipeDisplay.Ingredient) :
  filter is_base_item (pushed' ing)
  = if RecipeDisplay.is_base (RecipeDisplay.category ing)
    then pushed' ing else [].
Proof.
  unfold RecipeDisplay.recipe_step.
  destruct (RecipeDisplay.amountOf vectors ing) as [amt|];
    [|now destruct (RecipeDisplay.is_base _)].
  destruct (Rgt_dec amt 0.1); [|now destruct (RecipeDisplay.is_base _)].
  cbn [app filter RecipeDisplay.item_category].
  now destruct (RecipeDisplay.is_base (RecipeDisplay.category ing)).
Qed.

Lemma filter_flat_map_pushed (l : list RecipeDisplay.Ingredient) :
  filter is_base_item (flat_map pushed' l)
  = flat_map pushed'
             (filter (fun ing =>
                        RecipeDisplay.is_base (RecipeDisplay.category ing)) l).
Proof.
  induction l as [|ing l IH]; [reflexivity|].
  cbn [flat_map filter]; rewrite filter_app, IH, filter_pushed.
  now destruct (RecipeDisplay.is_base (RecipeDisplay.category ing)).
Qed.

Lemma reduce_amounts (l : list RecipeDisplay.Item) (init : R) :
  reduce (fun sum item => sum + RecipeDisplay.amount item) init l
  = init + Rsum (map RecipeDisplay.amount l).
Proof.
  unfold reduce, Rsum; revert init; induction l as [|x l IH]; intros init;
    cbn [fold_left map fold_right]; [lra|].
  rewrite IH; lra.
Qed.

Lemma totalBase_two_spirits :
  exists gin bourbon,
    nth_error RecipeDisplay.INGREDIENTS 0 = Some gin /\
    nth_error RecipeDisplay.INGREDIENTS 1 = Some bourbon /\
    RecipeDisplay.totalBase vectors
    = Rsum (map RecipeDisplay.amount (pushed' gin))
      + Rsum (map RecipeDisplay.amount (pushed' bourbon)).
Proof.
  eexists; eexists; split; [reflexivity|]; split; [reflexivity|].
  unfold RecipeDisplay.totalBase, RecipeDisplay.spiritVolume.
  rewrite reduce_amounts, calculateRecipe_flat_map, filter_flat_map_pushed.
  unfold RecipeDisplay.INGREDIENTS;
    cbn [filter RecipeDisplay.category RecipeDisplay.is_base flat_map].
  rewrite app_nil_r, map_app.
  unfold Rsum; rewrite fold_right_app.
  fold (Rsum (map RecipeDisplay.amount
                  (pushed' (RecipeDisplay.mkIngredient
                              "Bourbon Whiskey" "Bourbon" RecipeDisplay.base
                              15 [(AxisS, 0.3); (AxisB, 0.2); (AxisI, 0.3)]
                              "ml")))).
  set (sb := Rsum _).
  generalize (map RecipeDisplay.amount
                  (pushed' (RecipeDisplay.mkIngredient
                              "London Dry Gin" "Gin" RecipeDisplay.base
                              30 [(AxisA, 0.3); (AxisT, 0.2); (AxisI, 0.2)]
                              "ml"))).
  intros l; induction l as [|x l IH]; cbn [fold_right]; lra.
Qed.
End BaseSpirits.



(** X25.  With non-negative Intensity, Bitterness and Texture, the base
    total shown against [BASE_CAPACITY] is non-negative and exceeds
    [BASE_CAPACITY * I] by at most 0.1 (each of the two spirits is rounded
    to a tenth on its own). *)
Theorem totalBase_bounded (vectors : VectorValues) :
  0 <= vec_I vectors -> 0 <= vec_B vectors -> 0 <= vec_T vectors ->
  0 <= RecipeDisplay.totalBase vectors
  <= RecipeDisplay.BASE_CAPACITY * vec_I vectors + 0.1.
Proof.
  intros HI HB HT.
  destruct (totalBase_two_spirits vectors)
    as (gin & bourbon & Hg & Hb & ->).
  injection Hg as <-; injection Hb as <-.
  pose proof (bourbonRatio_in_unit vectors HB HT) as [Hr0 Hr1].
  assert (HM : 0 <= RecipeDisplay.maxBaseTotal vectors).
  { unfold RecipeDisplay.maxBaseTotal, RecipeDisplay.BASE_CAPACITY; lra. }
  match goal with
  | |- _ <= Rsum (map _ (_ _ _ ?g)) + Rsum (map _ (_ _ _ ?b)) <= _ =>
      pose proof (pushed_sum_bound vectors g _
                    (amountOf_base vectors g eq_refl)) as Sg;
      pose proof (pushed_sum_bound vectors b _
                    (amountOf_base vectors b eq_refl)) as Sb
  end.
  cbn [RecipeDisplay.shortName String.eqb Ascii.eqb Bool.eqb] in Sg, Sb.
  unfold RecipeDisplay.ginRatio in Sg.
  assert (Hgin : 0 <= RecipeDisplay.maxBaseTotal vectors
                      * (1 - RecipeDisplay.bourbonRatio vectors)) by nra.
  assert (Hbou : 0 <= RecipeDisplay.maxBaseTotal vectors
                      * RecipeDisplay.bourbonRatio vectors) by nra.
  specialize (Sg Hgin); specialize (Sb Hbou).
  unfold RecipeDisplay.maxBaseTotal in *; lra.
Qed.

Lemma totalBase_bounded_witness :
  0 <= RecipeDisplay.totalBase (mkVectors 0.5 0 1 0.25 0.75)
  <= RecipeDisplay.BASE_CAPACITY * vec_I (mkVectors 0.5 0 1 0.25 0.75) + 0.1.
Proof.
  apply (totalBase_bounded (mkVectors 0.5 0 1 0.25 0.75)); simpl; lra.
Defined.

(** * The metrics of [RecipeDisplay] *)




